(** * train-ranker.py: data preparation and trainer invocation

    A shallow embedding of [apps/api/src/ml/training/train-ranker.py]:
    [load_csv] (rows of a CSV file grouped by query, uniform-label queries
    dropped, the rest flattened into the LightGBM ranking triple), [train],
    [upload_to_s3] and [main].

    Python values are modelled as follows.
    - [str] is [string]; [None] where a [str] is expected is [option string].
    - [int] is [Z] (unbounded).
    - exceptions are the type [PyExn]; a computation that prints to stderr or
      calls an external library is a pair of the events it emitted and either
      its value or the exception that ended it.
    - the builtins [int()] and [float()], NumPy's float32 conversion and the
      LightGBM / pathlib / boto3 entry points are the fields of the classes
      [Builtins] and [Libraries]; every theorem holds for all instances. *)

From Stdlib Require Import QArith Ascii String.
From stdpp Require Import base numbers list gmap strings pretty.

Set Warnings "-clear-no-such-hyp".

Open Scope string_scope.
Open Scope list_scope.

(** ** Exceptions and results *)

(** The callee an exception comes from, where the message depends on it. *)
Inductive callee := py_int | py_float | np_array.

Inductive PyExn :=
  | KeyError (key : string)                (* row[key], key absent *)
  | ValueError (f : callee) (text : string) (* f(text), text not accepted *)
  | TypeError (f : callee)                 (* f(None) *)
  | OverflowError (value : Z)              (* Python int out of bounds for int32 *)
  | IndexError                             (* tuple index out of range *)
  | LibraryError (msg : string)            (* raised inside an external library *)
  | SystemExit (code : Z).                 (* sys.exit(code) *)

Inductive PyResult (A : Type) :=
  | Ok (a : A)
  | Raise (e : PyExn).
Arguments Ok {A} a.
Arguments Raise {A} e.

#[global] Instance PyResult_ret : MRet PyResult := λ A a, Ok a.
#[global] Instance PyResult_bind : MBind PyResult := λ A B f m,
  match m with Ok a => f a | Raise e => Raise e end.

#[global] Instance callee_eq_dec : EqDecision callee.
Proof. solve_decision. Defined.
#[global] Instance PyExn_eq_dec : EqDecision PyExn.
Proof. solve_decision. Defined.

(** ** csv.DictReader *)

(** A row as [csv.DictReader] yields it: a dict from field name to the cell
    text, or to [None] (the [restval]) where the line was shorter than the
    header.  The [restkey] entry of a longer line is keyed by [None], which no
    string key reads, and is left out. *)
Abbreviation DictRow := (gmap string (option string)).

(** [dict(zip(fieldnames, row))] followed by [d[key] = restval] for the
    field names past the end of [row]: later pairs overwrite earlier ones. *)
Definition make_row (fieldnames : list string) (row : list string) : DictRow :=
  let cells := (Some <$> row) ++ replicate (length fieldnames - length row) None in
  foldl (λ d kv, <[kv.1 := kv.2]> d) ∅ (zip fieldnames cells).

(** The argument is what [csv.reader] yields for the file: a list of cells
    per line.  The first line is the header; blank lines ([row == []]) after
    it are skipped. *)
Definition DictReader (lines : list (list string)) : list DictRow :=
  match lines with
  | [] => []
  | fieldnames :: rows => make_row fieldnames <$> filter (λ row, row ≠ []) rows
  end.

Definition getitem (row : DictRow) (key : string) : PyResult (option string) :=
  match row !! key with
  | Some v => Ok v
  | None => Raise (KeyError key)
  end.

(** ** Builtins *)

Class Builtins := {
  (** Python's [float] *)
  float : Type;
  (** [int(s)] for a [str]: [None] when it raises ValueError *)
  int_of_str : string → option Z;
  (** [float(s)] for a [str]: [None] when it raises ValueError *)
  float_of_str : string → option float;
  (** [np.float32] and the conversion [np.array(..., dtype=np.float32)]
      applies to each element *)
  float32 : Type;
  np_float32 : float → float32;
}.

(** ** NumPy arrays of one or two dimensions *)

Inductive ndarray (A : Type) :=
  | Array1 (xs : list A)
  | Array2 (ncols : nat) (rows : list (list A)).
Arguments Array1 {A} xs.
Arguments Array2 {A} ncols rows.

Definition shape {A} (a : ndarray A) : list nat :=
  match a with
  | Array1 xs => [length xs]
  | Array2 m rows => [length rows; m]
  end.

(** [len(a)] *)
Definition len {A} (a : ndarray A) : nat :=
  match a with
  | Array1 xs => length xs
  | Array2 _ rows => length rows
  end.

(** [a.shape[i]] *)
Definition shape_at {A} (a : ndarray A) (i : nat) : PyResult nat :=
  match shape a !! i with
  | Some n => Ok n
  | None => Raise IndexError
  end.

Definition INT32_MIN : Z := - 2 ^ 31.
Definition INT32_MAX : Z := 2 ^ 31 - 1.

(** [np.array(ys, dtype=np.int32)] on a list of Python ints: an int outside
    the int32 range raises OverflowError (NumPy 2). *)
Definition np_array_int32 (ys : list Z) : PyResult (ndarray Z) :=
  match list_find (λ y, ¬ (INT32_MIN ≤ y ≤ INT32_MAX)%Z) ys with
  | Some (_, y) => Raise (OverflowError y)
  | None => Ok (Array1 ys)
  end.

Section with_builtins.
Context `{Builtins}.

(** [int(x)] and [float(x)] where [x] is a [str] or [None] *)
Definition int (x : option string) : PyResult Z :=
  match x with
  | None => Raise (TypeError py_int)
  | Some s =>
      match int_of_str s with
      | Some z => Ok z
      | None => Raise (ValueError py_int s)
      end
  end.

Definition float_ (x : option string) : PyResult float :=
  match x with
  | None => Raise (TypeError py_float)
  | Some s =>
      match float_of_str s with
      | Some v => Ok v
      | None => Raise (ValueError py_float s)
      end
  end.

(** [np.array(rows, dtype=np.float32)] on a list of lists of floats: the
    empty list gives a one-dimensional array of length 0; rows of different
    lengths raise ValueError. *)
Definition np_array_float32 (rows : list (list float)) : PyResult (ndarray float32) :=
  match rows with
  | [] => Ok (Array1 [])
  | r :: _ =>
      if decide (Forall (λ r', length r' = length r) rows)
      then Ok (Array2 (length r) (fmap (M:=list) (fmap (M:=list) np_float32) rows))
      else Raise (ValueError np_array "inhomogeneous shape")
  end.

End with_builtins.

(** ** Module constants *)

Definition FEATURE_COLS : list string :=
  [ "f0_similarity";
    "f1_rank_score";
    "f2_authority";
    "f3_source_boost";
    "f4_crop_match";
    "f5_term_density";
    "f6_chunk_pos" ].

(** [gain[label]] maps ordinal label to NDCG gain: labels 0, 1, 2 *)
Definition LABEL_GAIN : list Z := [0; 1; 3]%Z.

(** ** defaultdict(list) *)

(** A dict keeps its keys in insertion order: an association list with one
    entry per key.  [d[k].append(v)] on a [defaultdict(list)] appends to the
    entry of [k], creating it at the end when [k] is new. *)
Fixpoint defaultdict_append {K V} `{EqDecision K}
    (d : list (K * list V)) (k : K) (v : V) : list (K * list V) :=
  match d with
  | [] => [(k, [v])]
  | (k', vs) :: d' =>
      if decide (k' = k) then (k', vs ++ [v]) :: d'
      else (k', vs) :: defaultdict_append d' k v
  end.

(** ** LightGBM interface types *)

Record Params := {
  objective : string;
  metric : string;
  ndcg_eval_at : list Z;
  label_gain : list Z;
  learning_rate : Q;
  num_leaves : Z;
  min_data_in_leaf : Z;
  verbose : Z;
}.

Inductive Callback := log_evaluation (period : nat).

Section with_builtins.
Context `{Builtins}.

(** [lgb.Dataset(data, label=, group=, feature_name=, free_raw_data=)]: the
    constructor only records its arguments. *)
Record Dataset := {
  ds_data : ndarray float32;
  ds_label : ndarray Z;
  ds_group : list nat;
  ds_feature_name : list string;
  ds_free_raw_data : bool;
}.

(** The external entry points the program calls.  Each may raise. *)
Class Libraries := {
  Booster : Type;
  (** [lgb.train(params, train_set, num_boost_round=, valid_sets=,
      valid_names=, callbacks=)] *)
  lgb_train : Params → Dataset → nat → list Dataset → list string →
              list Callback → PyResult Booster;
  (** [str(Path(p))] *)
  path_str : string → string;
  (** [Path(p).parent.mkdir(parents=True, exist_ok=True)] *)
  mkdir_parent : string → PyResult unit;
  (** [booster.save_model(path)] *)
  save_model : Booster → string → PyResult unit;
  (** [boto3.client(...)], or [None] when [import boto3] raises
      ImportError; the client is its [upload_file(local_path, bucket, key)] *)
  boto3_client : option (PyResult (string → string → string → PyResult unit));
}.

Context `{Libraries}.

(** What the program does to the outside, in order. *)
Inductive Event :=
  | Stderr (text : string)
  | LgbTrain (params : Params) (train_set : Dataset) (num_boost_round : nat)
             (valid_sets : list Dataset) (valid_names : list string)
             (callbacks : list Callback)
  | Mkdir (path : string)
  | SaveModel (booster : Booster) (path : string)
  | UploadFile (local_path bucket key : string).

(** A run: the events emitted, then a value or the exception that ended it. *)
Record IO (A : Type) := MkIO { events : list Event; outcome : PyResult A }.
Arguments MkIO {A} events outcome.
Arguments events {A} _.
Arguments outcome {A} _.

#[global] Instance IO_ret : MRet IO := λ A a, MkIO [] (Ok a).
#[global] Instance IO_bind : MBind IO := λ A B f m,
  match outcome m with
  | Ok a => MkIO (events m ++ events (f a)) (outcome (f a))
  | Raise e => MkIO (events m) (Raise e)
  end.

Definition lift {A} (r : PyResult A) : IO A := MkIO [] r.
(** [print(text, file=sys.stderr)] *)
Definition print_stderr (text : string) : IO unit := MkIO [Stderr text] (Ok ()).
(** [sys.exit(code)] *)
Definition sys_exit {A} (code : Z) : IO A := MkIO [] (Raise (SystemExit code)).
(** a library call: the event, then what the library returns or raises *)
Definition call {A} (ev : Event) (r : PyResult A) : IO A := MkIO [ev] r.

Definition newline : string := String (ascii_of_nat 10) "".

(** ** load_csv *)

(** Lines 72-74: the fields of one row, read in the order [qid], [label],
    then the feature columns; the first failure raises. *)
Definition parse_row (row : DictRow)
    : PyResult (option string * (list float * Z)) :=
  qid ← getitem row "qid";
  label ← getitem row "label" ≫= int;
  features ← mapM (λ col, getitem row col ≫= float_) FEATURE_COLS;
  mret (qid, (features, label)).

(** The first loop: one parsed row appended to its query's list per CSV
    row; an exception ends the loop and [load_csv]. *)
Fixpoint read_rows (reader : list DictRow)
    (by_query : list (option string * list (list float * Z)))
    : PyResult (list (option string * list (list float * Z))) :=
  match reader with
  | [] => Ok by_query
  | row :: reader' =>
      '(qid, item) ← parse_row row;
      read_rows reader' (defaultdict_append by_query qid item)
  end.

(** The variables of the second loop. *)
Record LoopState := {
  X_rows : list (list float);
  y_rows : list Z;
  groups : list nat;
  skipped : nat;
}.

Definition append_item (st : LoopState) (item : list float * Z) : LoopState :=
  {| X_rows := X_rows st ++ [item.1];
     y_rows := y_rows st ++ [item.2];
     groups := groups st;
     skipped := skipped st |}.

(** The body of [for qid, items in by_query.items()]. *)
Definition group_step (st : LoopState)
    (entry : option string * list (list float * Z)) : LoopState :=
  let items := entry.2 in
  let labels := snd <$> items in
  if decide (size (list_to_set labels : gset Z) < 2) then
    {| X_rows := X_rows st; y_rows := y_rows st; groups := groups st;
       skipped := skipped st + 1 |}
  else
    let st' := foldl append_item st items in
    {| X_rows := X_rows st'; y_rows := y_rows st';
       groups := groups st' ++ [length items];
       skipped := skipped st' |}.

Definition filter_groups
    (by_query : list (option string * list (list float * Z))) : LoopState :=
  foldl group_step {| X_rows := []; y_rows := []; groups := []; skipped := 0 |}
        by_query.

Definition load_csv (lines : list (list string))
    : IO (ndarray float32 * ndarray Z * list nat) :=
  by_query ← lift (read_rows (DictReader lines) []);
  let st := filter_groups by_query in
  (if decide (skipped st ≠ 0) then
     print_stderr ("Skipped " +:+ pretty (skipped st) +:+
                   " queries with uniform labels (no ranking signal).")
   else mret ());;
  match X_rows st with
  | [] =>
      print_stderr ("ERROR: No usable training data after filtering." +:+
                    newline +:+
                    "Collect more feedback events before retraining.");;
      sys_exit 1
  | _ :: _ =>
      X ← lift (np_array_float32 (X_rows st));
      y ← lift (np_array_int32 (y_rows st));
      mret (X, y, groups st)
  end.

(** ** train *)

Definition train_params : Params :=
  {| objective := "lambdarank";
     metric := "ndcg";
     ndcg_eval_at := [3; 5]%Z;
     label_gain := LABEL_GAIN;
     learning_rate := (5 # 100)%Q;
     num_leaves := 31;
     min_data_in_leaf := 5;
     verbose := -1 |}.

Definition train (X : ndarray float32) (y : ndarray Z) (groups : list nat)
    : IO Booster :=
  let train_data :=
    {| ds_data := X; ds_label := y; ds_group := groups;
       ds_feature_name := FEATURE_COLS; ds_free_raw_data := false |} in
  let params := train_params in
  let num_boost_round := 300 in
  n_features ← lift (shape_at X 1);
  print_stderr ("Training LambdaRank: " +:+ pretty (len y) +:+ " samples, " +:+
                pretty (length groups) +:+ " queries, " +:+
                pretty n_features +:+ " features, " +:+
                pretty num_boost_round +:+ " rounds.");;
  booster ← call (LgbTrain params train_data num_boost_round [train_data]
                           ["train"] [log_evaluation 50])
                 (lgb_train params train_data num_boost_round [train_data]
                            ["train"] [log_evaluation 50]);
  mret booster.

(** ** upload_to_s3 *)

Definition upload_to_s3 (local_path bucket key : string) : IO unit :=
  match boto3_client with
  | None =>
      print_stderr ("WARNING: boto3 not installed; skipping S3 upload." +:+
                    newline +:+ "Install with: pip install boto3")
  | Some client =>
      upload_file ← lift client;
      print_stderr ("Uploading model to s3://" +:+ bucket +:+ "/" +:+ key +:+
                    " ...");;
      call (UploadFile local_path bucket key) (upload_file local_path bucket key);;
      print_stderr "Model uploaded successfully."
  end.

(** ** main *)

(** The parsed command line. *)
Record Args := {
  input : string;
  output : string;
  s3_bucket : string;
  s3_key : string;
}.

(** [lines] is the content of the file [args.input] as [csv.reader] yields
    it. *)
Definition main (args : Args) (lines : list (list string)) : IO unit :=
  print_stderr ("Loading training data from " +:+ input args +:+ " ...");;
  '(X, y, groups) ← load_csv lines;
  n_features ← lift (shape_at X 1);
  print_stderr ("Loaded: " +:+ pretty (len y) +:+ " samples across " +:+
                pretty (length groups) +:+ " queries, " +:+
                pretty n_features +:+ " features.");;
  booster ← train X y groups;
  let output_path := output args in
  call (Mkdir output_path) (mkdir_parent output_path);;
  call (SaveModel booster (path_str output_path))
       (save_model booster (path_str output_path));;
  print_stderr ("Model saved to " +:+ path_str output_path);;
  if decide (s3_bucket args ≠ "" ∧ s3_key args ≠ "") then
    upload_to_s3 (path_str output_path) (s3_bucket args) (s3_key args)
  else
    print_stderr "Tip: pass --s3-bucket and --s3-key to upload the model for SageMaker deployment.".

End with_builtins.

Arguments MkIO {_ _ _} events outcome.
Arguments events {_ _ _} _.
Arguments outcome {_ _ _} _.

(** ** A reference runtime

    An instance of [Builtins] and [Libraries] to run the model on concrete
    files.  [int_of_str] and [float_of_str] follow CPython's grammar on
    ASCII text: surrounding whitespace is stripped, a digit part is
    [digit (["_"] digit)*], [int()] refuses more than 4300 digits.  A float
    is kept as the decimal it denotes; rounding to binary64 and to float32
    is not modelled (no function of the program reads a feature value).  The
    library calls all succeed; a booster is the data set it was trained
    on. *)
Module Ref.

Definition is_space (c : ascii) : bool :=
  let n := nat_of_ascii c in
  (((9 <=? n) && (n <=? 13)) || ((28 <=? n) && (n <=? 32)))%nat.

Definition is_digit (c : ascii) : bool :=
  let n := nat_of_ascii c in ((48 <=? n) && (n <=? 57))%nat.

Definition is_underscore (c : ascii) : bool := bool_decide (c = "_"%char).

Definition digit_value (c : ascii) : Z := Z.of_nat (nat_of_ascii c) - 48.

Fixpoint lstrip (s : list ascii) : list ascii :=
  match s with
  | c :: s' => if is_space c then lstrip s' else s
  | [] => []
  end.

Definition strip (s : list ascii) : list ascii :=
  reverse (lstrip (reverse (lstrip s))).

(** the longest prefix of digits and underscores, and the rest *)
Fixpoint span_digits (s : list ascii) : list ascii * list ascii :=
  match s with
  | c :: s' =>
      if is_digit c || is_underscore c
      then let '(ds, r) := span_digits s' in (c :: ds, r)
      else ([], s)
  | [] => ([], [])
  end.

(** [digit (["_"] digit)*]: starts with a digit, every underscore is
    followed by a digit *)
Fixpoint digitpart_ok (ds : list ascii) : bool :=
  match ds with
  | [] => false
  | c :: ds' =>
      is_digit c &&
      match ds' with
      | [] => true
      | c' :: ds'' => if is_underscore c' then digitpart_ok ds'' else digitpart_ok ds'
      end
  end.

Definition digits_of (ds : list ascii) : list ascii := filter (λ c, is_digit c = true) ds.

Definition digits_value (ds : list ascii) : Z :=
  foldl (λ acc c, 10 * acc + digit_value c)%Z 0%Z (digits_of ds).

Definition split_sign (s : list ascii) : bool * list ascii :=
  match s with
  | c :: s' =>
      if bool_decide (c = "-"%char) then (true, s')
      else if bool_decide (c = "+"%char) then (false, s')
      else (false, s)
  | [] => (false, [])
  end.

Definition ref_int_of_str (text : string) : option Z :=
  let '(neg, s) := split_sign (strip (list_ascii_of_string text)) in
  let '(ds, r) := span_digits s in
  if digitpart_ok ds && bool_decide (r = []) &&
     (length (digits_of ds) <=? 4300)%nat
  then Some (if neg then - digits_value ds else digits_value ds)%Z
  else None.

Inductive decimal_float :=
  | FNaN
  | FInf (negative : bool)
  | FDec (negative : bool) (digits : Z) (exp10 : Z).

Definition lower (c : ascii) : ascii :=
  let n := nat_of_ascii c in
  if ((65 <=? n) && (n <=? 90))%nat then ascii_of_nat (n + 32) else c.

(** the optional exponent [("e" | "E") [sign] digitpart] at the end *)
Definition exponent (s : list ascii) : option Z :=
  match s with
  | [] => Some 0%Z
  | c :: s' =>
      if bool_decide (lower c = "e"%char) then
        let '(neg, s'') := split_sign s' in
        let '(ds, r) := span_digits s'' in
        if digitpart_ok ds && bool_decide (r = [])
        then Some (if neg then - digits_value ds else digits_value ds)%Z
        else None
      else None
  end.

Definition ref_float_of_str (text : string) : option decimal_float :=
  let '(neg, s) := split_sign (strip (list_ascii_of_string text)) in
  let name := string_of_list_ascii (lower <$> s) in
  if bool_decide (name = "inf" ∨ name = "infinity") then Some (FInf neg)
  else if bool_decide (name = "nan") then Some FNaN
  else
    let '(int_part, r) := span_digits s in
    let '(frac_part, r') :=
      match r with
      | c :: r0 => if bool_decide (c = "."%char) then span_digits r0 else ([], r)
      | [] => ([], [])
      end in
    let has_point := bool_decide (length r' < length r) in
    let number_ok :=
      (digitpart_ok int_part && (bool_decide (frac_part = []) || digitpart_ok frac_part))
      || (bool_decide (int_part = []) && has_point && digitpart_ok frac_part) in
    if number_ok then
      e ← exponent r';
      Some (FDec neg (digits_value (int_part ++ frac_part))
                 (e - Z.of_nat (length (digits_of frac_part))))
    else None.

#[export] Instance builtins : Builtins :=
  {| float := decimal_float;
     int_of_str := ref_int_of_str;
     float_of_str := ref_float_of_str;
     float32 := decimal_float;
     np_float32 := id |}.

#[export] Instance libraries : Libraries :=
  {| Booster := Dataset;
     lgb_train := λ _ train_set _ _ _ _, Ok train_set;
     path_str := id;
     mkdir_parent := λ _, Ok ();
     save_model := λ _ _, Ok ();
     boto3_client := None |}.

End Ref.


(** ** Vocabulary of the statements

    The query groups of a sequence of parsed records, said without the
    dict: the records of a query are selected by key, the queries are listed
    by first occurrence. *)
Section groups.
Context {K V : Type} `{EqDecision K}.

(** the records of query [q], in arrival order *)
Definition group_of (q : K) (recs : list (K * V)) : list V :=
  snd <$> filter (λ r, r.1 = q) recs.

(** the distinct keys of [ks], each at its first occurrence *)
Fixpoint first_occurrences (ks : list K) : list K :=
  match ks with
  | [] => []
  | k :: ks' => k :: filter (λ k', k' ≠ k) (first_occurrences ks')
  end.

(** the query ids of the input, in order of first occurrence *)
Definition query_ids (recs : list (K * V)) : list K :=
  first_occurrences (recs.*1).

End groups.

(** all records of the group carry the same label *)
Definition uniform_labels {A} (items : list (A * Z)) : Prop :=
  ∀ i j, i ∈ items → j ∈ items → i.2 = j.2.

#[global] Instance uniform_labels_dec {A} (items : list (A * Z)) :
  Decision (uniform_labels items).
Proof.
  refine (match decide (Forall (λ i, Forall (λ j, i.2 = j.2) items) items) with
          | left Hf => left _
          | right Hf => right _
          end); unfold uniform_labels.
  - intros i j Hi Hj. rewrite Forall_forall in Hf.
    specialize (Hf i Hi). rewrite Forall_forall in Hf. by apply Hf.
  - intros Hu. apply Hf. apply Forall_forall. intros i Hi.
    apply Forall_forall. intros j Hj. by apply Hu.
Defined.

Section vocabulary.
Context {K A : Type} `{EqDecision K}.
Implicit Types recs : list (K * (A * Z)).

(** the queries that are dropped, and the queries that are kept *)
Definition uniform_queries recs : list K :=
  filter (λ q, uniform_labels (group_of q recs)) (query_ids recs).

Definition usable_queries recs : list K :=
  filter (λ q, ¬ uniform_labels (group_of q recs)) (query_ids recs).

(** the rows of the kept queries: query by query, each in arrival order *)
Definition kept_items recs : list (A * Z) :=
  usable_queries recs ≫= (λ q, group_of q recs).

Definition kept_sizes recs : list nat :=
  (λ q, length (group_of q recs)) <$> usable_queries recs.

(** the kept queries' groups, one block of rows per query, in output order *)
Definition kept_groups recs : list (list (A * Z)) :=
  (λ q, group_of q recs) <$> usable_queries recs.

End vocabulary.

(** the rows of a two-dimensional array and the elements of a
    one-dimensional one *)
Definition array_rows {A} (a : ndarray A) : list (list A) :=
  match a with Array1 _ => [] | Array2 _ rows => rows end.

Definition array_elems {A} (a : ndarray A) : list A :=
  match a with Array1 xs => xs | Array2 _ _ => [] end.

Definition in_int32 (y : Z) : Prop := (INT32_MIN ≤ y ≤ INT32_MAX)%Z.

Section vocabulary_load.
Context `{Builtins}.

(** all rows of the file parsed, in order; the first failure raises *)
Definition parse_rows (reader : list DictRow)
    : PyResult (list (option string * (list float * Z))) :=
  mapM parse_row reader.

Definition skipped_message (n : nat) : string :=
  "Skipped " +:+ pretty n +:+
  " queries with uniform labels (no ranking signal).".

Definition no_usable_data_message : string :=
  "ERROR: No usable training data after filtering." +:+ newline +:+
  "Collect more feedback events before retraining.".

(** what [load_csv] prints about the dropped queries *)
Definition skipped_events `{Libraries} (n : nat) : list Event :=
  if decide (n ≠ 0) then [Stderr (skipped_message n)] else [].

(** the run called the trainer, or wrote a model *)
Definition is_LgbTrain `{Libraries} (ev : Event) : Prop :=
  match ev with LgbTrain _ _ _ _ _ _ => True | _ => False end.

Definition is_SaveModel `{Libraries} (ev : Event) : Prop :=
  match ev with SaveModel _ _ => True | _ => False end.

(** the fields [parse_row] reads, in the order it reads them *)
Definition REQUIRED_COLS : list string := "qid" :: "label" :: FEATURE_COLS.

(** the builtin that parses column [col] *)
Definition callee_of (col : string) : callee :=
  if decide (col = "label") then py_int else py_float.

(** the builtin that parses column [col] accepts [text] *)
Definition accepts (col text : string) : Prop :=
  if decide (col = "label") then is_Some (int_of_str text)
  else is_Some (float_of_str text).

#[global] Instance accepts_dec col text : Decision (accepts col text).
Proof. unfold accepts. destruct (decide (col = "label")); apply _. Defined.

(** reading column [col] of [row] raises nothing: the key is there and,
    unless it is the query id, holds a text its builtin accepts *)
Definition field_ok (row : DictRow) (col : string) : Prop :=
  match row !! col with
  | None => False
  | Some None => col = "qid"
  | Some (Some text) => col = "qid" ∨ accepts col text
  end.

#[global] Instance field_ok_dec row col : Decision (field_ok row col).
Proof. unfold field_ok. destruct (row !! col) as [[text|]|]; apply _. Defined.

(** record [i] is the first record that fails to parse, and it fails at
    the text [text] of its column [col]: the records before it parse, and in
    record [i] the fields read before [col] are fine *)
Definition first_malformed (reader : list DictRow)
    (i : nat) (col text : string) : Prop :=
  ∃ row before after,
    reader !! i = Some row ∧
    Forall (λ r, ∃ rec, parse_row r = Ok rec) (take i reader) ∧
    REQUIRED_COLS = before ++ col :: after ∧ col ≠ "qid" ∧
    Forall (field_ok row) before ∧
    row !! col = Some (Some text) ∧ ¬ accepts col text.


(** a row, and the records, with the labels renamed by [f] *)
Definition relabel_item (f : Z → Z) (item : list float * Z) : list float * Z :=
  (item.1, f item.2).

Definition relabel (f : Z → Z)
    (recs : list (option string * (list float * Z)))
    : list (option string * (list float * Z)) :=
  (λ r, (r.1, (r.2.1, f r.2.2))) <$> recs.

(** a run of [load_csv] with the labels it returns renamed by [f] *)
Definition relabel_output `{Libraries} (f : Z → Z)
    (r : IO (ndarray float32 * ndarray Z * list nat))
    : IO (ndarray float32 * ndarray Z * list nat) :=
  MkIO (events r)
       (match outcome r with
        | Ok (X, y, g) => Ok (X, Array1 (f <$> array_elems y), g)
        | Raise e => Raise e
        end).

End vocabulary_load.

(** ** Files to run the program on *)
Module Files.
Import Ref.

Definition header : list string := "qid" :: "label" :: FEATURE_COLS.

(** a line of the file: query id, label, and the same seven features *)
Definition line (qid label : string) : list string :=
  [qid; label; "0.5"; "1"; "2"; "3"; "4"; "5"; "6"].

Definition features : list float :=
  [FDec false 5 (-1); FDec false 1 0; FDec false 2 0; FDec false 3 0;
   FDec false 4 0; FDec false 5 0; FDec false 6 0].

(** the same features as float32 *)
Definition features32 : list float32 := np_float32 <$> features.

Definition record (qid : string) (label : Z)
    : option string * (list float * Z) :=
  (Some qid, (features, label)).

(** q1 has three distinct labels, q2 has label 1 twice *)
Definition two_queries : list (list string) :=
  [header; line "q1" "0"; line "q1" "1"; line "q1" "2";
   line "q2" "1"; line "q2" "1"].

Definition two_queries_records : list (option string * (list float * Z)) :=
  [record "q1" 0; record "q1" 1; record "q1" 2; record "q2" 1; record "q2" 1].

(** the rows of q2 and q1 alternate; q3 has a single row *)
Definition interleaved : list (list string) :=
  [header; line "q2" "1"; line "q1" "0"; line "q3" "2"; line "q2" "2";
   line "q1" "1"].

Definition interleaved_records : list (option string * (list float * Z)) :=
  [record "q2" 1; record "q1" 0; record "q3" 2; record "q2" 2; record "q1" 1].

(** one query, labels 5 and -1, and the same with labels 1 and 0 *)
Definition out_of_range_labels : list (list string) :=
  [header; line "q" "5"; line "q" "-1"].

Definition in_range_labels : list (list string) :=
  [header; line "q" "1"; line "q" "0"].

(** one query, labels 0 and 10^20 - 1 *)
Definition huge_label : list (list string) :=
  [header; line "q" "0"; line "q" "99999999999999999999"].

(** the first record has a bad first feature; the second record has a bad
    fourth feature *)
Definition bad_f0_in_first : list (list string) :=
  [header; ["q"; "1"; "x"; "1"; "2"; "3"; "4"; "5"; "6"]].

Definition bad_f3_in_second : list (list string) :=
  [header; line "q" "1"; ["q"; "0"; "0.5"; "1"; "2"; "x"; "4"; "5"; "6"]].


Definition empty_X : ndarray float32 := Array2 7 [].
Definition empty_y : ndarray Z := Array1 [].

Definition empty_train_data : Dataset :=
  {| ds_data := empty_X; ds_label := empty_y; ds_group := [];
     ds_feature_name := FEATURE_COLS; ds_free_raw_data := false |}.

Definition args : Args :=
  {| input := "training.csv"; output := "model.txt";
     s3_bucket := ""; s3_key := "" |}.

(** one query with the label 1 twice *)
Definition one_uniform_query : list (list string) :=
  [header; line "q2" "1"; line "q2" "1"].

(** label 1 becomes 5, any other label becomes -1 *)
Definition rename_5_and_minus_1 (label : Z) : Z :=
  if decide (label = 1%Z) then 5%Z else (-1)%Z.

End Files.

(** ** Vocabulary of the further properties *)

Section vocabulary_more.
Context `{Builtins} `{!Libraries}.

(** the exception of reading column [col] of [row] when that field is not
    fine: the key is absent, the cell was cut off by a short line, or the
    text is rejected *)
Definition field_exn (row : DictRow) (col : string) : PyExn :=
  match row !! col with
  | None => KeyError col
  | Some None => TypeError (callee_of col)
  | Some (Some text) => ValueError (callee_of col) text
  end.


Definition is_Stderr (ev : Event) : Prop :=
  match ev with Stderr _ => True | _ => False end.

Definition is_Mkdir (ev : Event) : Prop :=
  match ev with Mkdir _ => True | _ => False end.

Definition is_UploadFile (ev : Event) : Prop :=
  match ev with UploadFile _ _ _ => True | _ => False end.

(** the lines [main], [train] and [upload_to_s3] print *)
Definition loading_message (args : Args) : string :=
  "Loading training data from " +:+ input args +:+ " ...".

Definition loaded_message (samples queries n_features : nat) : string :=
  "Loaded: " +:+ pretty samples +:+ " samples across " +:+
  pretty queries +:+ " queries, " +:+ pretty n_features +:+ " features.".

Definition training_message (samples queries n_features : nat) : string :=
  "Training LambdaRank: " +:+ pretty samples +:+ " samples, " +:+
  pretty queries +:+ " queries, " +:+ pretty n_features +:+ " features, " +:+
  pretty 300 +:+ " rounds.".

Definition saved_message (args : Args) : string :=
  "Model saved to " +:+ path_str (output args).

Definition tip_message : string :=
  "Tip: pass --s3-bucket and --s3-key to upload the model for SageMaker deployment.".

Definition no_boto3_message : string :=
  "WARNING: boto3 not installed; skipping S3 upload." +:+ newline +:+
  "Install with: pip install boto3".

Definition uploading_message (args : Args) : string :=
  "Uploading model to s3://" +:+ s3_bucket args +:+ "/" +:+ s3_key args +:+
  " ...".

(** the data set [train] builds from its arguments *)
Definition dataset_of (X : ndarray float32) (y : ndarray Z) (g : list nat)
    : Dataset :=
  {| ds_data := X; ds_label := y; ds_group := g;
     ds_feature_name := FEATURE_COLS; ds_free_raw_data := false |}.

(** the call [train] makes on that data set, and what the library answers *)
Definition train_call (ds : Dataset) : Event :=
  LgbTrain train_params ds 300 [ds] ["train"] [log_evaluation 50].

Definition train_result (ds : Dataset) : PyResult Booster :=
  lgb_train train_params ds 300 [ds] ["train"] [log_evaluation 50].

(** an upload was asked for on the command line *)
Definition upload_requested (args : Args) : Prop :=
  s3_bucket args ≠ "" ∧ s3_key args ≠ "".

#[global] Instance upload_requested_dec args : Decision (upload_requested args).
Proof. unfold upload_requested. apply _. Defined.

(** what [main] has printed and called once the trainer has been called on
    the loaded set, and what it adds once the model is saved *)
Definition trained_events (args : Args) (lines : list (list string))
    (X : ndarray float32) (y : ndarray Z) (g : list nat) : list Event :=
  Stderr (loading_message args) :: events (load_csv lines) ++
  [Stderr (loaded_message (len y) (length g) (length FEATURE_COLS));
   Stderr (training_message (len y) (length g) (length FEATURE_COLS));
   train_call (dataset_of X y g)].

Definition saved_events (args : Args) (booster : Booster) : list Event :=
  [Mkdir (output args);
   SaveModel booster (path_str (output args));
   Stderr (saved_message args)].

End vocabulary_more.

(** ** Libraries that fail, and more files *)
Module Runtimes.
Import Ref.

(** the trainer raises *)
Definition trainer_raises : Libraries :=
  {| Booster := Dataset;
     lgb_train := λ _ _ _ _ _ _, Raise (LibraryError "lgb.train");
     path_str := id;
     mkdir_parent := λ _, Ok ();
     save_model := λ _ _, Ok ();
     boto3_client := None |}.

(** making the output directory raises *)
Definition mkdir_raises : Libraries :=
  {| Booster := Dataset;
     lgb_train := λ _ train_set _ _ _ _, Ok train_set;
     path_str := id;
     mkdir_parent := λ _, Raise (LibraryError "mkdir");
     save_model := λ _ _, Ok ();
     boto3_client := None |}.

(** saving the model raises *)
Definition save_raises : Libraries :=
  {| Booster := Dataset;
     lgb_train := λ _ train_set _ _ _ _, Ok train_set;
     path_str := id;
     mkdir_parent := λ _, Ok ();
     save_model := λ _ _, Raise (LibraryError "save_model");
     boto3_client := None |}.

(** boto3 is installed and the upload raises *)
Definition upload_raises : Libraries :=
  {| Booster := Dataset;
     lgb_train := λ _ train_set _ _ _ _, Ok train_set;
     path_str := id;
     mkdir_parent := λ _, Ok ();
     save_model := λ _ _, Ok ();
     boto3_client := Some (Ok (λ _ _ _, Raise (LibraryError "upload_file"))) |}.

End Runtimes.

Module MoreFiles.
Import Ref Files.

(** [in_range_labels] with the label column first and a column more *)
Definition columns_moved : list (list string) :=
  [ "label" :: "qid" :: FEATURE_COLS ++ ["note"];
    ["1"; "q"; "0.5"; "1"; "2"; "3"; "4"; "5"; "6"; "checked"];
    ["0"; "q"; "0.5"; "1"; "2"; "3"; "4"; "5"; "6"; ""] ].

(** [in_range_labels] with the first two columns swapped *)
Definition columns_swapped_header : list string :=
  "label" :: "qid" :: FEATURE_COLS.

Definition columns_swapped_rows : list (list string) :=
  [ ["1"; "q"; "0.5"; "1"; "2"; "3"; "4"; "5"; "6"];
    ["0"; "q"; "0.5"; "1"; "2"; "3"; "4"; "5"; "6"] ].

(** [in_range_labels] with its two rows swapped *)
Definition rows_swapped : list (list string) :=
  [header; line "q" "0"; line "q" "1"].

(** the second line ends after the first feature *)
Definition short_second_line : list (list string) :=
  [header; line "q" "1"; ["q"; "0"; "0.5"]].

(** the first line ends after the first feature *)
Definition short_line : list string := ["q"; "0"; "0.5"].

(** rows added at the end of [in_range_labels] *)
Definition added_rows : list (list string) :=
  [line "q9" "1"; line "q9" "2"; line "q" "1"].

Definition upload_args : Args :=
  {| input := "training.csv"; output := "model.txt";
     s3_bucket := "bucket"; s3_key := "models/ranker/model.txt" |}.

Definition loaded_X : ndarray float32 := Array2 7 [features32; features32].
Definition loaded_y : ndarray Z := Array1 [1; 0]%Z.

End MoreFiles.

(** * Properties *)

(** ** The result monad *)

Lemma bind_Ok {A B} (f : A → PyResult B) (a : A) : Ok a ≫= f = f a.
Proof. reflexivity. Qed.

Lemma bind_Raise {A B} (f : A → PyResult B) (e : PyExn) :
  (Raise e : PyResult A) ≫= f = Raise e.
Proof. reflexivity. Qed.

Lemma mapM_Ok_length {A B} (f : A → PyResult B) l k :
  mapM f l = Ok k → length k = length l.
Proof.
  revert k. induction l as [|x l IH]; intros k; simpl.
  - by intros [= <-].
  - destruct (f x) as [y|e]; simpl; [|done].
    destruct (mapM f l) as [k'|e]; simpl; [|done].
    intros [= <-]. simpl. f_equal. by apply IH.
Qed.

Lemma mapM_app_Raise {A B} (f : A → PyResult B) l1 x l2 e :
  Forall (λ y, ∃ b, f y = Ok b) l1 → f x = Raise e →
  mapM f (l1 ++ x :: l2) = Raise e.
Proof.
  intros Hl1 Hx. induction Hl1 as [|y l1 [b Hb] _ IH]; simpl.
  - by rewrite Hx.
  - rewrite Hb. simpl. by rewrite IH.
Qed.

(** ** Grouping by key *)

Section groups_facts.
Context {K V : Type} `{EqDecision K}.
Implicit Types (recs : list (K * V)) (ks : list K).

Lemma elem_of_first_occurrences ks k : k ∈ first_occurrences ks ↔ k ∈ ks.
Proof.
  induction ks as [|a ks IH]; simpl; [done|].
  rewrite !elem_of_cons, list_elem_of_filter, IH.
  destruct (decide (k = a)); naive_solver.
Qed.

Lemma NoDup_first_occurrences ks : NoDup (first_occurrences ks).
Proof.
  induction ks as [|a ks IH]; simpl; [constructor|].
  constructor.
  - rewrite list_elem_of_filter. naive_solver.
  - by apply NoDup_filter.
Qed.

Lemma first_occurrences_snoc ks k :
  first_occurrences (ks ++ [k]) =
  if decide (k ∈ ks) then first_occurrences ks else first_occurrences ks ++ [k].
Proof.
  induction ks as [|a ks IH]; simpl; [done|].
  rewrite IH. destruct (decide (k ∈ ks)) as [Hin|Hin].
  - rewrite decide_True by (by right). done.
  - rewrite filter_app. simpl. destruct (decide (k = a)) as [->|Hne].
    + rewrite decide_True by (by left).
      rewrite filter_cons_False by naive_solver. simpl. by rewrite app_nil_r.
    + rewrite decide_False by (rewrite elem_of_cons; naive_solver).
      by rewrite filter_cons_True by done.
Qed.

Lemma group_of_snoc q recs k v :
  group_of q (recs ++ [(k, v)]) =
  group_of q recs ++ (if decide (k = q) then [v] else []).
Proof.
  unfold group_of. rewrite filter_app, fmap_app. f_equal.
  simpl. destruct (decide (k = q)).
  - by rewrite filter_cons_True.
  - by rewrite filter_cons_False.
Qed.

Lemma group_of_nil_iff q recs : group_of q recs = [] ↔ q ∉ recs.*1.
Proof.
  unfold group_of. induction recs as [|[k v] recs IH]; simpl.
  - split; [intros _; apply not_elem_of_nil | done].
  - rewrite not_elem_of_cons. destruct (decide (k = q)) as [->|Hne].
    + rewrite filter_cons_True by done. simpl. naive_solver.
    + rewrite filter_cons_False by done. rewrite IH. naive_solver.
Qed.

(** appending to a dict whose entries are given key by key *)
Lemma defaultdict_append_fmap (g : K → list V) ks k v :
  NoDup ks →
  defaultdict_append ((λ q, (q, g q)) <$> ks) k v =
  if decide (k ∈ ks)
  then (λ q, (q, g q ++ (if decide (k = q) then [v] else []))) <$> ks
  else ((λ q, (q, g q)) <$> ks) ++ [(k, [v])].
Proof.
  induction 1 as [|a ks Ha Hnd IH]; csimpl; [done|].
  destruct (decide (a = k)) as [->|Hne].
  - rewrite decide_True by (by left). rewrite decide_True by done.
    f_equal. apply list_fmap_ext. intros i q Hq.
    rewrite decide_False; [by rewrite app_nil_r|].
    intros ->. apply Ha. by eapply list_elem_of_lookup_2.
  - rewrite IH. rewrite (decide_False (P := k = a)) by done.
    rewrite app_nil_r.
    destruct (decide (k ∈ ks)) as [Hin|Hin].
    + rewrite decide_True by (by right). done.
    + rewrite decide_False by (rewrite elem_of_cons; naive_solver). done.
Qed.

(** The first loop builds exactly the groups, in order of first occurrence. *)
Lemma foldl_defaultdict_append recs :
  foldl (λ d r, defaultdict_append d r.1 r.2) [] recs =
  (λ q, (q, group_of q recs)) <$> query_ids recs.
Proof.
  induction recs as [|[k v] recs IH] using rev_ind; [done|].
  rewrite foldl_app. simpl. rewrite IH.
  rewrite defaultdict_append_fmap by apply NoDup_first_occurrences.
  unfold query_ids. rewrite fmap_app. simpl. rewrite first_occurrences_snoc.
  rewrite (decide_ext _ (k ∈ recs.*1)) by apply elem_of_first_occurrences.
  destruct (decide (k ∈ recs.*1)) as [Hin|Hin].
  - apply list_fmap_ext. intros i q _. by rewrite group_of_snoc.
  - rewrite fmap_app. simpl. f_equal.
    + apply list_fmap_ext. intros i q Hq. rewrite group_of_snoc.
      rewrite decide_False; [by rewrite app_nil_r|].
      intros ->. apply Hin. apply elem_of_first_occurrences.
      by eapply list_elem_of_lookup_2.
    + rewrite group_of_snoc. rewrite decide_True by done.
      apply group_of_nil_iff in Hin. by rewrite Hin.
Qed.

End groups_facts.

(** ** The two loops of load_csv *)

Lemma filter_fmap_list {A B} (P : B → Prop) `{∀ b, Decision (P b)}
    (f : A → B) (l : list A) :
  filter P (f <$> l) = f <$> filter (λ a, P (f a)) l.
Proof.
  induction l as [|a l IH]; csimpl; [done|].
  destruct (decide (P (f a))).
  - rewrite !filter_cons_True by done. csimpl. by rewrite IH.
  - by rewrite !filter_cons_False by done.
Qed.

(** [len(set(labels)) < 2] says that the labels are all the same. *)
Lemma distinct_labels_lt_2 {A} (items : list (A * Z)) :
  size (list_to_set (items.*2) : gset Z) < 2 ↔ uniform_labels items.
Proof.
  unfold uniform_labels. split.
  - intros Hsz i j Hi Hj.
    destruct (decide (i.2 = j.2)) as [|Hne]; [done|exfalso].
    assert ({[i.2; j.2]} ⊆ (list_to_set (items.*2) : gset Z)) as Hsub.
    { intros x. rewrite elem_of_union, !elem_of_singleton, elem_of_list_to_set.
      intros [->| ->]; by apply list_elem_of_fmap_2. }
    apply subseteq_size in Hsub.
    rewrite size_union, !size_singleton in Hsub by set_solver. lia.
  - intros Hu. destruct items as [|i items].
    + rewrite fmap_nil, list_to_set_nil, size_empty. lia.
    + rewrite fmap_cons, list_to_set_cons.
      assert (list_to_set (items.*2) ⊆ ({[i.2]} : gset Z)) as Hsub.
      { intros x. rewrite elem_of_list_to_set, elem_of_singleton.
        intros ([a z]&->&Hin)%list_elem_of_fmap. symmetry.
        apply (Hu i (a, z)); [by left|by right]. }
      assert (({[i.2]} ∪ list_to_set (items.*2) : gset Z) = {[i.2]}) as ->
        by set_solver.
      rewrite size_singleton. lia.
Qed.

Section loops.
Context `{Builtins}.
Implicit Types (st : LoopState)
  (by_query : list (option string * list (list float * Z)))
  (recs : list (option string * (list float * Z))).

Lemma read_rows_parse_rows reader by_query :
  read_rows reader by_query =
  recs ← parse_rows reader;
  Ok (foldl (λ d r, defaultdict_append d r.1 r.2) by_query recs).
Proof.
  unfold parse_rows. revert by_query.
  induction reader as [|row reader IH]; intros by_query; csimpl; [done|].
  destruct (parse_row row) as [[qid item]|e]; csimpl; [|done].
  rewrite IH. by destruct (mapM parse_row reader).
Qed.

Lemma foldl_append_item st items :
  foldl append_item st items =
  {| X_rows := X_rows st ++ items.*1; y_rows := y_rows st ++ items.*2;
     groups := groups st; skipped := skipped st |}.
Proof.
  revert st. induction items as [|item items IH]; intros st; csimpl.
  - rewrite !app_nil_r. by destruct st.
  - rewrite IH. unfold append_item; simpl. by rewrite <-!app_assoc.
Qed.

Lemma group_step_uniform st qid items :
  uniform_labels items →
  group_step st (qid, items) =
  {| X_rows := X_rows st; y_rows := y_rows st; groups := groups st;
     skipped := skipped st + 1 |}.
Proof.
  intros Hu. unfold group_step. simpl.
  rewrite decide_True; [done|]. by apply distinct_labels_lt_2.
Qed.

Lemma group_step_usable st qid items :
  ¬ uniform_labels items →
  group_step st (qid, items) =
  {| X_rows := X_rows st ++ items.*1; y_rows := y_rows st ++ items.*2;
     groups := groups st ++ [length items]; skipped := skipped st |}.
Proof.
  intros Hu. unfold group_step. simpl.
  rewrite decide_False; [by rewrite foldl_append_item|].
  by rewrite distinct_labels_lt_2.
Qed.

Lemma foldl_group_step st by_query :
  let kept := filter (λ e, ¬ uniform_labels e.2) by_query in
  foldl group_step st by_query =
  {| X_rows := X_rows st ++ (kept ≫= snd).*1;
     y_rows := y_rows st ++ (kept ≫= snd).*2;
     groups := groups st ++ ((λ e, length e.2) <$> kept);
     skipped := skipped st + length (filter (λ e, uniform_labels e.2) by_query) |}.
Proof.
  revert st. induction by_query as [|[qid items] by_query IH]; intros st; csimpl.
  - rewrite !app_nil_r, Nat.add_0_r. by destruct st.
  - rewrite IH. destruct (decide (uniform_labels items)) as [Hu|Hu].
    + rewrite group_step_uniform by done.
      rewrite filter_cons_False by naive_solver.
      rewrite filter_cons_True by done. simpl. f_equal. lia.
    + rewrite group_step_usable by done.
      rewrite filter_cons_True by done.
      rewrite filter_cons_False by done. csimpl.
      rewrite !fmap_app, <-!app_assoc. done.
Qed.

(** What the second loop leaves, in terms of the parsed records. *)
Lemma filter_groups_query_ids recs :
  filter_groups ((λ q, (q, group_of q recs)) <$> query_ids recs) =
  {| X_rows := (kept_items recs).*1;
     y_rows := (kept_items recs).*2;
     groups := kept_sizes recs;
     skipped := length (uniform_queries recs) |}.
Proof.
  unfold filter_groups. rewrite foldl_group_step. simpl.
  rewrite !filter_fmap_list. simpl.
  unfold kept_items, kept_sizes, usable_queries, uniform_queries.
  rewrite length_fmap, <-list_fmap_compose.
  f_equal.
  - f_equal. generalize (filter (λ a, ¬ uniform_labels (group_of a recs)) (query_ids recs)).
    intros l. induction l as [|q l IH]; csimpl; [done|]. by rewrite IH.
  - f_equal. generalize (filter (λ a, ¬ uniform_labels (group_of a recs)) (query_ids recs)).
    intros l. induction l as [|q l IH]; csimpl; [done|]. by rewrite IH.
Qed.

End loops.

(** ** load_csv in terms of the parsed records *)

Lemma elem_of_group_of {K V} `{EqDecision K} (q : K) (recs : list (K * V)) v :
  v ∈ group_of q recs ↔ (q, v) ∈ recs.
Proof.
  unfold group_of. rewrite list_elem_of_fmap. split.
  - intros ([k v']&->&[Hk Hin]%list_elem_of_filter). simpl in *. by subst.
  - intros Hin. exists (q, v). split; [done|]. by apply list_elem_of_filter.
Qed.

Lemma uniform_labels_short {A} (items : list (A * Z)) :
  length items < 2 → uniform_labels items.
Proof.
  destruct items as [|i [|j items]]; simpl; intros Hlen i1 i2 H1 H2;
    [by apply elem_of_nil in H1| |lia].
  apply list_elem_of_singleton in H1, H2. by subst.
Qed.

Lemma np_array_int32_Ok ys :
  Forall in_int32 ys → np_array_int32 ys = Ok (Array1 ys).
Proof.
  intros Hys. unfold np_array_int32.
  destruct (list_find _ ys) as [[i y]|] eqn:Hfind; [|done].
  apply list_find_Some in Hfind as (Hi&Hy&_).
  rewrite Forall_forall in Hys. destruct Hy. apply Hys.
  by eapply list_elem_of_lookup_2.
Qed.

Lemma np_array_int32_inv ys a :
  np_array_int32 ys = Ok a → a = Array1 ys ∧ Forall in_int32 ys.
Proof.
  unfold np_array_int32.
  destruct (list_find _ ys) as [[i y]|] eqn:Hfind; [done|].
  intros [= <-]. split; [done|].
  apply Forall_forall. intros y Hy.
  eapply list_find_None in Hfind. rewrite Forall_forall in Hfind.
  specialize (Hfind y Hy). unfold in_int32.
  destruct (decide ((INT32_MIN ≤ y ≤ INT32_MAX)%Z)); [done|by destruct Hfind].
Qed.

Section load_csv_facts.
Context `{Builtins} `{!Libraries}.
Implicit Types (recs : list (option string * (list float * Z))).

Lemma parse_row_Ok_inv row qid features label :
  parse_row row = Ok (qid, (features, label)) →
  getitem row "qid" = Ok qid ∧
  getitem row "label" ≫= int = Ok label ∧
  mapM (λ col, getitem row col ≫= float_) FEATURE_COLS = Ok features.
Proof.
  unfold parse_row.
  remember (mapM (λ col, getitem row col ≫= float_) FEATURE_COLS) as m.
  remember (getitem row "label" ≫= int) as l.
  destruct (getitem row "qid"); [|done].
  destruct l; [|done]. destruct m; [|done].
  by intros [= -> -> ->].
Qed.

Lemma parse_row_features_length row qid features label :
  parse_row row = Ok (qid, (features, label)) →
  length features = length FEATURE_COLS.
Proof. intros (_&_&Hfs)%parse_row_Ok_inv. by apply mapM_Ok_length in Hfs. Qed.

Lemma parse_rows_features_length reader recs :
  parse_rows reader = Ok recs →
  Forall (λ r, length r.2.1 = length FEATURE_COLS) recs.
Proof.
  unfold parse_rows. revert recs.
  induction reader as [|row reader IH]; intros recs; csimpl.
  - intros [= <-]. constructor.
  - destruct (parse_row row) as [[qid [fs l]]|] eqn:Hrow; csimpl; [|done].
    destruct (mapM parse_row reader) as [recs'|]; csimpl; [|done].
    intros [= <-]. constructor; [|by apply IH].
    simpl. by eapply parse_row_features_length.
Qed.

Lemma elem_of_kept_items recs (x : list float * Z) :
  x ∈ kept_items recs ↔
  ∃ q, (q, x) ∈ recs ∧ ¬ uniform_labels (group_of q recs).
Proof.
  unfold kept_items, usable_queries. rewrite list_elem_of_bind. split.
  - intros (q&Hx&[Hq _]%list_elem_of_filter). exists q.
    by rewrite <-elem_of_group_of.
  - intros (q&Hx&Hq). exists q. split; [by apply elem_of_group_of|].
    apply list_elem_of_filter. split; [done|].
    apply elem_of_first_occurrences.
    change q with ((q, x).1). by apply list_elem_of_fmap_2.
Qed.

Lemma kept_items_nil recs : kept_items recs = [] ↔ usable_queries recs = [].
Proof.
  unfold kept_items. split; [|by intros ->].
  destruct (usable_queries recs) as [|q qs] eqn:Hqs; [done|].
  assert (q ∈ usable_queries recs) as [Hq _]%list_elem_of_filter
    by (rewrite Hqs; by left).
  csimpl. intros [Hnil _]%app_eq_nil. destruct Hq.
  apply uniform_labels_short. rewrite Hnil. simpl. lia.
Qed.

Lemma np_array_float32_kept reader recs :
  parse_rows reader = Ok recs → kept_items recs ≠ [] →
  np_array_float32 (kept_items recs).*1 =
  Ok (Array2 (length FEATURE_COLS)
             (fmap (M:=list) np_float32 <$> (kept_items recs).*1)).
Proof.
  intros Hparse Hne.
  assert (Forall (λ r : list float, length r = length FEATURE_COLS)
                 (kept_items recs).*1) as Hlen.
  { apply Forall_fmap, Forall_forall. intros x (q&Hx&_)%elem_of_kept_items.
    apply parse_rows_features_length in Hparse.
    rewrite Forall_forall in Hparse. apply (Hparse _ Hx). }
  unfold np_array_float32.
  destruct ((kept_items recs).*1) as [|r rows] eqn:Hrows.
  { by apply fmap_nil_inv in Hrows. }
  pose proof (Forall_inv Hlen) as Hr. simpl in Hr.
  rewrite decide_True.
  - by rewrite Hr.
  - eapply Forall_impl; [exact Hlen|]. simpl. intros r' ->. done.
Qed.

Lemma IO_bind_lift_Ok {A B} (a : A) (f : A → IO B) : lift (Ok a) ≫= f = f a.
Proof. unfold lift, mbind, IO_bind. simpl. by destruct (f a). Qed.

Lemma IO_bind_lift_Raise {A B} e (f : A → IO B) :
  lift (Raise e) ≫= f = MkIO [] (Raise e).
Proof. reflexivity. Qed.

Lemma IO_bind_Ok {A B} evs (a : A) (f : A → IO B) :
  MkIO evs (Ok a) ≫= f = MkIO (evs ++ events (f a)) (outcome (f a)).
Proof. reflexivity. Qed.

(** [load_csv] once the rows are parsed. *)
Lemma load_csv_parsed lines recs :
  parse_rows (DictReader lines) = Ok recs →
  load_csv lines =
  ((if decide (length (uniform_queries recs) ≠ 0) then
      print_stderr (skipped_message (length (uniform_queries recs)))
    else mret ());;
   match (kept_items recs).*1 with
   | [] => print_stderr no_usable_data_message;; sys_exit 1
   | _ :: _ =>
       X ← lift (np_array_float32 (kept_items recs).*1);
       y ← lift (np_array_int32 (kept_items recs).*2);
       mret (X, y, kept_sizes recs)
   end).
Proof.
  intros Hparse. unfold load_csv.
  rewrite read_rows_parse_rows, Hparse, bind_Ok, IO_bind_lift_Ok.
  rewrite foldl_defaultdict_append, filter_groups_query_ids.
  reflexivity.
Qed.

(** Parsing failed: nothing is printed, the exception of the first row
    that fails ends [load_csv]. *)
Lemma load_csv_parse_Raise lines e :
  parse_rows (DictReader lines) = Raise e →
  load_csv lines = MkIO [] (Raise e).
Proof.
  intros Hparse. unfold load_csv.
  rewrite read_rows_parse_rows, Hparse. reflexivity.
Qed.

(** Parsing succeeded and no query is usable. *)
Lemma load_csv_no_usable lines recs :
  parse_rows (DictReader lines) = Ok recs → usable_queries recs = [] →
  load_csv lines =
  MkIO (skipped_events (length (uniform_queries recs)) ++
        [Stderr no_usable_data_message])
       (Raise (SystemExit 1)).
Proof.
  intros Hparse Hnone. rewrite (load_csv_parsed _ _ Hparse).
  apply kept_items_nil in Hnone. rewrite Hnone.
  unfold skipped_events. by destruct (decide (length (uniform_queries recs) ≠ 0)).
Qed.

(** Parsing succeeded and some query is usable. *)
Lemma load_csv_usable lines recs :
  parse_rows (DictReader lines) = Ok recs → usable_queries recs ≠ [] →
  load_csv lines =
  MkIO (skipped_events (length (uniform_queries recs)))
       (y ← np_array_int32 (kept_items recs).*2;
        Ok (Array2 (length FEATURE_COLS)
                   (fmap (M:=list) np_float32 <$> (kept_items recs).*1),
            y, kept_sizes recs)).
Proof.
  intros Hparse Hsome. rewrite (load_csv_parsed _ _ Hparse).
  rewrite <-kept_items_nil in Hsome.
  rewrite (np_array_float32_kept _ _ Hparse Hsome).
  destruct ((kept_items recs).*1) as [|x xs] eqn:Hxs.
  { by apply fmap_nil_inv in Hxs. }
  rewrite IO_bind_lift_Ok.
  unfold skipped_events.
  destruct (decide (length (uniform_queries recs) ≠ 0));
    by destruct (np_array_int32 (kept_items recs).*2).
Qed.

End load_csv_facts.

(** ** Permutations of the kept rows *)

Lemma filter_ext_elem_of {A} (P Q : A → Prop)
    `{∀ x, Decision (P x)} `{∀ x, Decision (Q x)} (l : list A) :
  (∀ x, x ∈ l → P x ↔ Q x) → filter P l = filter Q l.
Proof.
  induction l as [|x l IH]; intros HPQ; [done|].
  rewrite !filter_cons, IH by (intros; apply HPQ; by right).
  destruct (decide (P x)) as [HP|HP], (decide (Q x)) as [HQ|HQ];
    try done; exfalso; pose proof (HPQ x ltac:(by left)); tauto.
Qed.

Lemma filter_or_Permutation {A} (P Q : A → Prop)
    `{∀ x, Decision (P x)} `{∀ x, Decision (Q x)} (l : list A) :
  (∀ x, P x → Q x → False) →
  filter (λ x, P x ∨ Q x) l ≡ₚ filter P l ++ filter Q l.
Proof.
  intros Hdisj. induction l as [|x l IH]; [done|].
  rewrite !filter_cons.
  destruct (decide (P x)) as [HP|HP], (decide (Q x)) as [HQ|HQ].
  - destruct (Hdisj x HP HQ).
  - rewrite decide_True by (by left). simpl. by rewrite IH.
  - rewrite decide_True by (by right). rewrite IH.
    by rewrite Permutation_middle.
  - rewrite decide_False by tauto. done.
Qed.

Lemma bind_group_of_Permutation {K V} `{EqDecision K}
    (qs : list K) (recs : list (K * V)) :
  NoDup qs →
  qs ≫= (λ q, group_of q recs) ≡ₚ snd <$> filter (λ r, r.1 ∈ qs) recs.
Proof.
  induction 1 as [|q qs Hq Hnd IH]; csimpl.
  - rewrite (filter_ext_elem_of _ (λ _, False)).
    + by induction recs.
    + intros x _. by rewrite elem_of_nil.
  - rewrite IH. unfold group_of. rewrite <-fmap_app.
    rewrite <-filter_or_Permutation by (intros r <-; done).
    rewrite (filter_ext_elem_of (λ r, r.1 ∈ q :: qs)
                                (λ r, r.1 = q ∨ r.1 ∈ qs)); [done|].
    intros r _. by rewrite elem_of_cons.
Qed.

Lemma kept_items_Permutation {K A} `{EqDecision K}
    (recs : list (K * (A * Z))) :
  kept_items recs ≡ₚ
  snd <$> filter (λ r, ¬ uniform_labels (group_of r.1 recs)) recs.
Proof.
  unfold kept_items.
  rewrite bind_group_of_Permutation
    by (apply NoDup_filter, NoDup_first_occurrences).
  rewrite (filter_ext_elem_of _ (λ r, ¬ uniform_labels (group_of r.1 recs)));
    [done|].
  intros r Hr. unfold usable_queries. rewrite list_elem_of_filter.
  unfold query_ids. rewrite elem_of_first_occurrences.
  split; [by intros [? _]|]. intros Hu. split; [done|].
  by apply list_elem_of_fmap_2.
Qed.

Lemma sum_list_group_sizes {K V} `{EqDecision K}
    (qs : list K) (recs : list (K * V)) :
  sum_list ((λ q, length (group_of q recs)) <$> qs) =
  length (qs ≫= (λ q, group_of q recs)).
Proof.
  induction qs as [|q qs IH]; csimpl; [done|].
  by rewrite length_app, IH.
Qed.

(** The block of the [i]-th key within the concatenation of the blocks: it
    starts where the blocks before it end. *)
Lemma bind_segment {K B} (f : K → list B) (qs : list K) i q :
  qs !! i = Some q →
  take (length (f q))
       (drop (sum_list ((λ q, length (f q)) <$> take i qs)) (qs ≫= f)) = f q.
Proof.
  revert i. induction qs as [|q' qs IH]; intros [|i] Hi; simplify_eq/=.
  - by rewrite drop_0, take_app_length.
  - rewrite drop_app_add. by apply IH.
Qed.

Lemma fmap_concat_blocks {A B} (f : A → B) (blocks : list (list A)) :
  f <$> concat blocks = concat (fmap (M:=list) f <$> blocks).
Proof.
  induction blocks as [|b blocks IH]; csimpl; [done|].
  by rewrite fmap_app, IH.
Qed.

Lemma kept_items_groups {K A} `{EqDecision K} (recs : list (K * (A * Z))) :
  kept_items recs = concat (kept_groups recs).
Proof.
  unfold kept_items, kept_groups.
  induction (usable_queries recs) as [|q qs IH]; csimpl; [done|].
  by rewrite IH.
Qed.

Lemma NoDup_usable_queries {K A} `{EqDecision K} (recs : list (K * (A * Z))) :
  NoDup (usable_queries recs).
Proof. apply NoDup_filter, NoDup_first_occurrences. Qed.

(** ** The claims about load_csv *)

Section load_csv_claims.
Context `{Builtins} `{!Libraries}.
Implicit Types (recs : list (option string * (list float * Z))).

(** What a successful [load_csv] returned. *)
Lemma load_csv_Ok_inv lines X y g :
  outcome (load_csv lines) = Ok (X, y, g) →
  ∃ recs,
    parse_rows (DictReader lines) = Ok recs ∧
    usable_queries recs ≠ [] ∧
    Forall in_int32 (kept_items recs).*2 ∧
    load_csv lines =
      MkIO (skipped_events (length (uniform_queries recs))) (Ok (X, y, g)) ∧
    X = Array2 (length FEATURE_COLS)
               (fmap (M:=list) np_float32 <$> (kept_items recs).*1) ∧
    y = Array1 (kept_items recs).*2 ∧
    g = kept_sizes recs.
Proof.
  destruct (parse_rows (DictReader lines)) as [recs|e] eqn:Hparse.
  2: { by rewrite (load_csv_parse_Raise _ _ Hparse). }
  destruct (decide (usable_queries recs = [])) as [Hnone|Hsome].
  { by rewrite (load_csv_no_usable _ _ Hparse Hnone). }
  rewrite (load_csv_usable _ _ Hparse Hsome). simpl.
  destruct (np_array_int32 (kept_items recs).*2) as [y'|e] eqn:Hy; [|done].
  apply np_array_int32_inv in Hy as [-> Hy]. simpl.
  intros [= <- <- <-]. by exists recs.
Qed.

(** C1: every query whose records all carry the same label contributes no
    rows, and the skipped counter is the number of such queries.  For every
    file whose rows parse into the records [recs]: the first loop succeeds;
    after the second loop [skipped] is the number of query ids whose group is
    uniform; the rows emitted ([X_rows] paired with [y_rows]) are, up to
    order, exactly the records of the groups that are not uniform; the
    counter is what [load_csv] reports first on stderr; and the arrays
    [load_csv] returns hold these rows. *)
Theorem uniform_groups_contribute_nothing lines recs :
  parse_rows (DictReader lines) = Ok recs →
  ∃ by_query,
    read_rows (DictReader lines) [] = Ok by_query ∧
    let st := filter_groups by_query in
    skipped st = length (uniform_queries recs) ∧
    zip (X_rows st) (y_rows st) ≡ₚ
      snd <$> filter (λ r, ¬ uniform_labels (group_of r.1 recs)) recs ∧
    (∃ rest, events (load_csv lines) = skipped_events (skipped st) ++ rest) ∧
    ∀ X y g, outcome (load_csv lines) = Ok (X, y, g) →
      array_rows X = fmap (M:=list) np_float32 <$> X_rows st ∧
      array_elems y = y_rows st ∧
      g = groups st.
Proof.
  intros Hparse. eexists. split.
  { rewrite read_rows_parse_rows, Hparse, bind_Ok. reflexivity. }
  rewrite foldl_defaultdict_append, filter_groups_query_ids. simpl.
  split; [done|]. split.
  { rewrite zip_fst_snd. apply kept_items_Permutation. }
  split.
  - destruct (decide (usable_queries recs = [])) as [Hnone|Hsome].
    + rewrite (load_csv_no_usable _ _ Hparse Hnone). simpl. by eexists.
    + rewrite (load_csv_usable _ _ Hparse Hsome). simpl.
      exists []. by rewrite app_nil_r.
  - intros X y g (recs'&Hparse'&_&_&_&->&->&->)%load_csv_Ok_inv.
    rewrite Hparse in Hparse'. by injection Hparse' as <-.
Qed.

(** C2: when [load_csv] succeeds, the group sizes sum to the number of
    labels, which is the number of feature rows, and the three outputs list
    the query groups of the input in the same order.  With [recs] the
    records the file parses into, the kept queries are distinct, and their
    groups ([kept_groups]: for each kept query, in output order, its records
    of the input) are the blocks of all three outputs: the feature rows are
    the blocks' features concatenated, the labels are the blocks' labels
    concatenated, the group sizes are the blocks' lengths.  Position by
    position: the [i]-th group size is the number of records of the [i]-th
    kept query [q], and the rows of [X] and the labels of [y] that start at
    the sum of the sizes before it are the features and the labels of the
    records of [q], in arrival order. *)
Theorem group_sizes_sum_to_rows lines X y g :
  outcome (load_csv lines) = Ok (X, y, g) →
  sum_list g = len y ∧ len y = len X ∧
  shape X = [len X; length FEATURE_COLS] ∧
  ∃ recs,
    parse_rows (DictReader lines) = Ok recs ∧
    NoDup (usable_queries recs) ∧
    array_rows X =
      fmap (M:=list) np_float32 <$>
        concat (fmap (M:=list) fst <$> kept_groups recs) ∧
    array_elems y = concat (fmap (M:=list) snd <$> kept_groups recs) ∧
    g = length <$> kept_groups recs ∧
    ∀ i q, usable_queries recs !! i = Some q →
      g !! i = Some (length (group_of q recs)) ∧
      take (length (group_of q recs)) (drop (sum_list (take i g)) (array_rows X))
        = fmap (M:=list) np_float32 <$> (group_of q recs).*1 ∧
      take (length (group_of q recs)) (drop (sum_list (take i g)) (array_elems y))
        = (group_of q recs).*2.
Proof.
  intros (recs&Hparse&_&_&_&->&->&->)%load_csv_Ok_inv. simpl.
  split.
  { unfold kept_sizes, kept_items.
    by rewrite sum_list_group_sizes, !length_fmap. }
  split; [by rewrite !length_fmap|]. split; [done|].
  exists recs. split; [done|]. split; [apply NoDup_usable_queries|].
  rewrite <-!fmap_concat_blocks, <-kept_items_groups.
  split; [done|]. split; [done|]. split.
  { unfold kept_sizes, kept_groups. by rewrite <-list_fmap_compose. }
  intros i q Hq.
  pose proof (bind_segment (λ q, group_of q recs) _ i q Hq) as Hseg.
  fold (kept_items recs) in Hseg.
  unfold kept_sizes. rewrite list_lookup_fmap, Hq, <-fmap_take.
  split; [done|].
  by rewrite <-!fmap_drop, <-!fmap_take, Hseg.
Qed.

(** C4: when [load_csv] succeeds, every group size it returns is at least
    2 (and there is at least one group). *)
Theorem group_sizes_at_least_2 lines X y g :
  outcome (load_csv lines) = Ok (X, y, g) →
  Forall (λ n, (2 ≤ n)%nat) g ∧ g ≠ [].
Proof.
  intros (recs&_&Hsome&_&_&_&_&->)%load_csv_Ok_inv.
  unfold kept_sizes. split.
  - apply Forall_fmap, Forall_forall.
    intros q [Hq _]%list_elem_of_filter. simpl.
    destruct (decide (2 ≤ length (group_of q recs))%nat); [done|].
    destruct Hq. apply uniform_labels_short. lia.
  - by intros ?%fmap_nil_inv.
Qed.

End load_csv_claims.

(** ** Failure of data preparation ends the run *)

Section main_claims.
Context `{Builtins} `{!Libraries}.
Implicit Types (recs : list (option string * (list float * Z))).

Lemma IO_bind_outcome_Raise {A B} (m : IO A) (f : A → IO B) e :
  outcome m = Raise e → m ≫= f = MkIO (events m) (Raise e).
Proof. intros Hm. unfold mbind, IO_bind. by rewrite Hm. Qed.

(** When [load_csv] raises, [main] prints its first line and what
    [load_csv] printed, and ends with the same exception. *)
Lemma main_load_csv_Raise args lines e :
  outcome (load_csv lines) = Raise e →
  main args lines =
  MkIO (Stderr ("Loading training data from " +:+ input args +:+ " ...")
          :: events (load_csv lines))
       (Raise e).
Proof.
  intros He. unfold main.
  rewrite (IO_bind_outcome_Raise (load_csv lines) _ e He).
  reflexivity.
Qed.

Lemma parse_rows_nil : parse_rows [] = Ok [].
Proof. reflexivity. Qed.

Lemma usable_queries_all_uniform recs :
  (∀ q, q ∈ query_ids recs → uniform_labels (group_of q recs)) →
  usable_queries recs = [] ∧ uniform_queries recs = query_ids recs.
Proof.
  intros Hall. unfold usable_queries, uniform_queries.
  rewrite (filter_ext_elem_of _ (λ _, False)) by naive_solver.
  rewrite (filter_ext_elem_of (λ q, uniform_labels _) (λ _, True))
    by naive_solver.
  clear Hall. split.
  - induction (query_ids recs) as [|q qs IH]; [done|].
    by rewrite filter_cons_False by tauto.
  - induction (query_ids recs) as [|q qs IH]; [done|].
    rewrite filter_cons_True by done. by rewrite IH.
Qed.

(** C3: a file with no record, and a file whose every query group has a
    single distinct label, end data preparation with the no-usable-data
    message and [sys.exit(1)]; [main] ends the same way, having neither
    called the trainer nor saved a model.  [recs] are the parsed records in
    the second case; the queries skipped are all of them. *)
Theorem no_usable_data_exits lines recs args :
  DictReader lines = [] ∧ recs = [] ∨
  parse_rows (DictReader lines) = Ok recs ∧
    (∀ q, q ∈ query_ids recs → uniform_labels (group_of q recs)) →
  let evs := skipped_events (length (query_ids recs)) ++
             [Stderr no_usable_data_message] in
  load_csv lines = MkIO evs (Raise (SystemExit 1)) ∧
  main args lines =
    MkIO (Stderr ("Loading training data from " +:+ input args +:+ " ...")
            :: evs)
         (Raise (SystemExit 1)) ∧
  Forall (λ ev, ¬ is_LgbTrain ev ∧ ¬ is_SaveModel ev)
         (events (main args lines)).
Proof.
  intros Hcase evs.
  assert (parse_rows (DictReader lines) = Ok recs ∧
          ∀ q, q ∈ query_ids recs → uniform_labels (group_of q recs))
    as [Hparse Hall].
  { destruct Hcase as [[Hnil ->]|[? ?]]; [|done]. rewrite Hnil.
    split; [done|]. intros q Hq. by apply elem_of_nil in Hq. }
  apply usable_queries_all_uniform in Hall as [Hnone Huni].
  pose proof (load_csv_no_usable _ _ Hparse Hnone) as Hload.
  rewrite Huni in Hload. fold evs in Hload.
  assert (main args lines =
    MkIO (Stderr ("Loading training data from " +:+ input args +:+ " ...")
            :: evs)
         (Raise (SystemExit 1))) as Hmain.
  { rewrite (main_load_csv_Raise args lines (SystemExit 1))
      by (by rewrite Hload).
    by rewrite Hload. }
  split; [done|]. split; [done|]. rewrite Hmain.
  unfold evs, skipped_events.
  destruct (decide _); repeat constructor; simpl; tauto.
Qed.

(** C9: [load_csv] is a function of the sequence of parsed rows, and its
    output is laid out by first occurrence.  For a file whose rows parse
    into [recs], with some query of two distinct labels and the labels
    kept within int32: the queries kept are those of [recs] in order of
    first occurrence, less the uniform ones; features, labels and group
    sizes list these queries in that order, each query's rows in arrival
    order; and any file that parses into the same records gives the same
    run. *)
Theorem load_csv_output_order lines recs :
  let queries :=
    filter (λ q, ¬ uniform_labels (group_of q recs))
           (first_occurrences (recs.*1)) in
  let items := queries ≫= (λ q, group_of q recs) in
  parse_rows (DictReader lines) = Ok recs →
  queries ≠ [] →
  Forall in_int32 (items.*2) →
  load_csv lines =
    MkIO (skipped_events (length (uniform_queries recs)))
         (Ok (Array2 (length FEATURE_COLS)
                     (fmap (M:=list) np_float32 <$> items.*1),
              Array1 (items.*2),
              (λ q, length (group_of q recs)) <$> queries)) ∧
  ∀ lines', parse_rows (DictReader lines') = Ok recs →
            load_csv lines' = load_csv lines.
Proof.
  intros queries items Hparse Hsome Hint.
  assert (∀ l, parse_rows (DictReader l) = Ok recs →
    load_csv l =
    MkIO (skipped_events (length (uniform_queries recs)))
         (Ok (Array2 (length FEATURE_COLS)
                     (fmap (M:=list) np_float32 <$> items.*1),
              Array1 (items.*2),
              (λ q, length (group_of q recs)) <$> queries))) as Hrun.
  { intros l Hl. rewrite (load_csv_usable _ _ Hl Hsome).
    change (kept_items recs) with items.
    by rewrite (np_array_int32_Ok _ Hint). }
  split; [by apply Hrun|].
  intros lines' Hparse'. by rewrite !Hrun.
Qed.

End main_claims.

(** ** Rows that do not parse *)

Lemma elem_of_zip_fst {A B} (ks : list A) (cells : list B) k :
  k ∈ (zip ks cells).*1 → k ∈ ks.
Proof.
  revert cells. induction ks as [|a ks IH]; intros [|c cells]; csimpl;
    try (by intros ?%elem_of_nil).
  rewrite !elem_of_cons. intros [->|Hin]; [by left|]. right. by eapply IH.
Qed.

Lemma foldl_insert_lookup_None (l : list (string * option string))
    (d : DictRow) col :
  col ∉ l.*1 → d !! col = None →
  foldl (λ d kv, <[kv.1 := kv.2]> d) d l !! col = None.
Proof.
  revert d. induction l as [|[k v] l IH]; intros d Hl Hd; csimpl in *; [done|].
  apply not_elem_of_cons in Hl as [Hk Hl].
  apply IH; [done|]. by rewrite lookup_insert_ne.
Qed.

(** a row has no key outside the header *)
Lemma make_row_lookup_None fieldnames row col :
  col ∉ fieldnames → make_row fieldnames row !! col = None.
Proof.
  intros Hcol. unfold make_row.
  apply foldl_insert_lookup_None; [|done].
  intros Hin. apply Hcol. by eapply elem_of_zip_fst.
Qed.



Lemma FEATURE_COLS_not_qid_label :
  Forall (λ c, c ≠ "qid" ∧ c ≠ "label") FEATURE_COLS.
Proof. repeat constructor; done. Qed.

Section parse_failures.
Context `{Builtins}.





(** reading a field that is fine *)
Lemma field_ok_label row :
  field_ok row "label" → ∃ z, getitem row "label" ≫= int = Ok z.
Proof.
  unfold field_ok, getitem, accepts.
  destruct (row !! "label") as [[s|]|]; [|done..].
  intros [?|[z Hz]]; [done|]. exists z. csimpl. by rewrite Hz.
Qed.

Lemma field_ok_feature row col :
  col ≠ "qid" → col ≠ "label" →
  field_ok row col → ∃ v, getitem row col ≫= float_ = Ok v.
Proof.
  intros Hq Hl. unfold field_ok, getitem, accepts.
  destruct (row !! col) as [[s|]|]; [|done..].
  rewrite decide_False by done.
  intros [?|[v Hv]]; [done|]. exists v. csimpl. by rewrite Hv.
Qed.

(** The exception of a row whose first bad field is [col]: the fields
    are read in the order of [REQUIRED_COLS]. *)
Lemma parse_row_first_failure row before col after :
  REQUIRED_COLS = before ++ col :: after →
  Forall (field_ok row) before →
  parse_row row =
  match row !! col with
  | None => Raise (KeyError col)
  | Some None =>
      if decide (col = "qid") then parse_row row
      else Raise (TypeError (callee_of col))
  | Some (Some text) =>
      if decide (col = "qid" ∨ accepts col text) then parse_row row
      else Raise (ValueError (callee_of col) text)
  end.
Proof.
  intros Hcols Hbefore. unfold REQUIRED_COLS in Hcols.
  destruct before as [|c0 [|c1 before]];
    [injection Hcols as <- _
    |injection Hcols as <- <- _
    |injection Hcols as <- <- Hcols].
  - (* the query id *)
    destruct (row !! "qid") as [[s|]|] eqn:Hq.
    + done.
    + done.
    + unfold parse_row, getitem. by rewrite Hq.
  - (* the label *)
    apply Forall_inv in Hbefore. unfold field_ok in Hbefore.
    assert (∃ qid, getitem row "qid" = Ok qid) as [qid Hqid].
    { unfold getitem. destruct (row !! "qid"); [by eexists|done]. }
    change (callee_of "label") with py_int.
    destruct (row !! "label") as [[s|]|] eqn:Hl.
    + case_decide as Hacc; [done|].
      assert (int_of_str s = None) as Hz.
      { destruct (int_of_str s) as [z|] eqn:Hz; [|done].
        destruct Hacc. right. unfold accepts. simpl. by rewrite Hz. }
      unfold parse_row. rewrite Hqid, bind_Ok.
      unfold getitem. rewrite Hl. csimpl. by rewrite Hz.
    + unfold parse_row. rewrite Hqid, bind_Ok.
      unfold getitem. by rewrite Hl.
    + unfold parse_row. rewrite Hqid, bind_Ok.
      unfold getitem. by rewrite Hl.
  - (* a feature column *)
    apply Forall_cons in Hbefore as [Hqid Hbefore].
    apply Forall_cons in Hbefore as [Hlabel Hbefore].
    pose proof FEATURE_COLS_not_qid_label as Hne.
    rewrite Hcols in Hne.
    apply Forall_app in Hne as [Hne_before Hne_col].
    apply Forall_cons in Hne_col as [[Hcq Hcl] _].
    destruct (field_ok_label _ Hlabel) as [z Hz].
    assert (Forall (λ c, ∃ v, getitem row c ≫= float_ = Ok v) before)
      as Hfs.
    { rewrite Forall_forall in Hbefore, Hne_before. apply Forall_forall.
      intros c Hc. destruct (Hne_before c Hc).
      by apply field_ok_feature; [..|apply Hbefore]. }
    assert (∀ e, getitem row col ≫= float_ = Raise e → parse_row row = Raise e)
      as Hraise.
    { intros e He.
      assert (∃ qid, getitem row "qid" = Ok qid) as [qid Hq].
      { unfold getitem. unfold field_ok in Hqid.
        destruct (row !! "qid"); [by eexists|done]. }
      unfold parse_row. rewrite Hq, bind_Ok, Hz, bind_Ok, Hcols.
      by rewrite (mapM_app_Raise _ _ _ _ e Hfs He). }
    assert (callee_of col = py_float) as ->
      by (unfold callee_of; by rewrite decide_False).
    destruct (row !! col) as [[s|]|] eqn:Hcol.
    + case_decide as Hacc; [done|].
      assert (float_of_str s = None) as Hv.
      { destruct (float_of_str s) as [v|] eqn:Hv; [|done].
        destruct Hacc. right. unfold accepts.
        rewrite decide_False by done. by rewrite Hv. }
      apply Hraise. unfold getitem. rewrite Hcol. csimpl. by rewrite Hv.
    + rewrite decide_False by done.
      apply Hraise. unfold getitem. by rewrite Hcol.
    + apply Hraise. unfold getitem. by rewrite Hcol.
Qed.

End parse_failures.

(** ** The claims about malformed input, the trainer and the labels *)

Section error_claims.
Context `{Builtins} `{!Libraries}.
Implicit Types (recs : list (option string * (list float * Z))).

Lemma parse_rows_first_Raise reader i row e :
  reader !! i = Some row →
  Forall (λ r, ∃ rec, parse_row r = Ok rec) (take i reader) →
  parse_row row = Raise e →
  parse_rows reader = Raise e.
Proof.
  intros Hi Hgood Hrow. rewrite <-(take_drop_middle reader i row Hi).
  by apply mapM_app_Raise.
Qed.

(** C5 (as the code has it): when the first field that fails to parse is
    the text [text] of a label or feature column, [load_csv] prints
    nothing, returns nothing and raises the ValueError of [int()] or
    [float()], which carries the rejected text; [main] stops there.  No row
    is dropped or coerced: the whole run aborts. *)
Theorem malformed_field_aborts lines i col text args :
  first_malformed (DictReader lines) i col text →
  load_csv lines = MkIO [] (Raise (ValueError (callee_of col) text)) ∧
  main args lines =
    MkIO [Stderr ("Loading training data from " +:+ input args +:+ " ...")]
         (Raise (ValueError (callee_of col) text)).
Proof.
  intros (row&before&after&Hi&Hgood&Hcols&Hq&Hbefore&Hcol&Hrej).
  assert (parse_row row = Raise (ValueError (callee_of col) text)) as Hrow.
  { rewrite (parse_row_first_failure row before col after Hcols Hbefore).
    rewrite Hcol. rewrite decide_False; [done|]. by intros [?|?]. }
  pose proof (parse_rows_first_Raise _ _ _ _ Hi Hgood Hrow) as Hparse.
  pose proof (load_csv_parse_Raise _ _ Hparse) as Hload.
  split; [done|].
  rewrite (main_load_csv_Raise args lines (ValueError (callee_of col) text))
    by (by rewrite Hload).
  by rewrite Hload.
Qed.


(** [train] on a feature matrix with a second dimension: the banner, then
    the call of the library. *)
Lemma train_unfold X y g n_features :
  shape_at X 1 = Ok n_features →
  let train_data :=
    {| ds_data := X; ds_label := y; ds_group := g;
       ds_feature_name := FEATURE_COLS; ds_free_raw_data := false |} in
  train X y g =
  MkIO [Stderr ("Training LambdaRank: " +:+ pretty (len y) +:+ " samples, " +:+
                pretty (length g) +:+ " queries, " +:+
                pretty n_features +:+ " features, " +:+
                pretty 300 +:+ " rounds.");
        LgbTrain train_params train_data 300 [train_data] ["train"]
                 [log_evaluation 50]]
       (lgb_train train_params train_data 300 [train_data] ["train"]
                  [log_evaluation 50]).
Proof.
  intros HX train_data. unfold train. rewrite HX, IO_bind_lift_Ok.
  fold train_data. unfold print_stderr, call.
  rewrite IO_bind_Ok. simpl.
  by destruct (lgb_train train_params train_data 300 [train_data] ["train"]
                         [log_evaluation 50]).
Qed.

(** C7 (as the code has it): [train] checks nothing about the training
    set.  For every feature matrix with a second dimension, and every label
    array and group-size sequence, the empty one included, it prints the
    banner and calls [lgb.train] with the fixed parameters on the data set
    built from its arguments; it returns or raises what that call does. *)
Theorem train_calls_library X y g n_features :
  shape_at X 1 = Ok n_features →
  let train_data :=
    {| ds_data := X; ds_label := y; ds_group := g;
       ds_feature_name := FEATURE_COLS; ds_free_raw_data := false |} in
  train X y g =
  MkIO [Stderr ("Training LambdaRank: " +:+ pretty (len y) +:+ " samples, " +:+
                pretty (length g) +:+ " queries, " +:+
                pretty n_features +:+ " features, " +:+
                pretty 300 +:+ " rounds.");
        LgbTrain train_params train_data 300 [train_data] ["train"]
                 [log_evaluation 50]]
       (lgb_train train_params train_data 300 [train_data] ["train"]
                  [log_evaluation 50]) ∧
  Exists is_LgbTrain (events (train X y g)).
Proof.
  intros HX train_data. pose proof (train_unfold X y g n_features HX) as Hrun.
  fold train_data in Hrun. split; [exact Hrun|].
  rewrite Hrun. apply Exists_cons_tl, Exists_cons_hd. exact I.
Qed.

(** C8: the gain table is the constant [0; 1; 3]: label 0 has gain 0,
    label 1 gain 1, label 2 gain 3; it is non-decreasing in the label and
    nowhere negative; and it is the [label_gain] of the parameters of every
    call [train] makes to the library. *)
Theorem label_gain_table :
  LABEL_GAIN !! 0 = Some 0%Z ∧
  LABEL_GAIN !! 1 = Some 1%Z ∧
  LABEL_GAIN !! 2 = Some 3%Z ∧
  length LABEL_GAIN = 3 ∧
  (∀ i j a b, (i ≤ j)%nat → LABEL_GAIN !! i = Some a →
              LABEL_GAIN !! j = Some b → (a ≤ b)%Z) ∧
  Forall (λ gain, (0 ≤ gain)%Z) LABEL_GAIN ∧
  label_gain train_params = LABEL_GAIN ∧
  ∀ X y g params train_set rounds valid_sets valid_names callbacks,
    LgbTrain params train_set rounds valid_sets valid_names callbacks
      ∈ events (train X y g) →
    label_gain params = LABEL_GAIN.
Proof.
  split; [done|]. split; [done|]. split; [done|]. split; [done|].
  split.
  { intros i j a b Hij Hi Hj.
    destruct i as [|[|[|i]]], j as [|[|[|j]]]; simplify_eq/=; lia. }
  split; [repeat constructor; done|]. split; [done|].
  intros X y g params ds rounds vs vn cb.
  destruct (shape_at X 1) as [n|e] eqn:HX.
  - rewrite (train_unfold X y g n HX). simpl.
    rewrite !elem_of_cons, elem_of_nil.
    intros [?|[[= -> _ _ _ _ _]|[]]]; done.
  - unfold train. rewrite HX. simpl. by intros ?%elem_of_nil.
Qed.

End error_claims.

(** ** Labels are opaque to load_csv *)

Section relabel_claims.
Context `{Builtins} `{!Libraries}.
Implicit Types (recs : list (option string * (list float * Z))) (f : Z → Z).

Lemma group_of_relabel f q recs :
  group_of q (relabel f recs) = relabel_item f <$> group_of q recs.
Proof.
  unfold group_of, relabel.
  induction recs as [|[k [fs l]] recs IH]; csimpl; [done|].
  rewrite !filter_cons. simpl. destruct (decide (k = q)); csimpl; by rewrite IH.
Qed.

Lemma query_ids_relabel f recs : query_ids (relabel f recs) = query_ids recs.
Proof.
  unfold query_ids, relabel. f_equal. rewrite <-list_fmap_compose.
  by apply list_fmap_ext.
Qed.

Lemma uniform_labels_relabel f (items : list (list float * Z)) :
  (∀ a b, a ∈ items.*2 → b ∈ items.*2 → f a = f b → a = b) →
  uniform_labels (relabel_item f <$> items) ↔ uniform_labels items.
Proof.
  intros Hinj. unfold uniform_labels. split.
  - intros Hu i j Hi Hj. apply Hinj; [by apply list_elem_of_fmap_2..|].
    apply (Hu (relabel_item f i) (relabel_item f j));
      by apply list_elem_of_fmap_2.
  - intros Hu i' j' (i&->&Hi)%list_elem_of_fmap (j&->&Hj)%list_elem_of_fmap.
    simpl. f_equal. by apply Hu.
Qed.

Lemma group_of_labels_subseteq q recs a :
  a ∈ (group_of q recs).*2 → a ∈ recs.*2.*2.
Proof.
  intros ([fs l]&->&Hin%elem_of_group_of)%list_elem_of_fmap.
  apply list_elem_of_fmap. exists (fs, l). split; [done|].
  apply list_elem_of_fmap. by exists (q, (fs, l)).
Qed.

Section injective.
Context f recs
  (Hinj : ∀ a b, a ∈ recs.*2.*2 → b ∈ recs.*2.*2 → f a = f b → a = b).

Lemma uniform_group_relabel q :
  uniform_labels (group_of q (relabel f recs)) ↔
  uniform_labels (group_of q recs).
Proof.
  rewrite group_of_relabel. apply uniform_labels_relabel.
  intros a b Ha Hb. apply Hinj; by eapply group_of_labels_subseteq.
Qed.

Lemma usable_queries_relabel :
  usable_queries (relabel f recs) = usable_queries recs.
Proof.
  unfold usable_queries. rewrite query_ids_relabel.
  apply filter_ext_elem_of. intros q _. by rewrite uniform_group_relabel.
Qed.

Lemma uniform_queries_relabel :
  uniform_queries (relabel f recs) = uniform_queries recs.
Proof.
  unfold uniform_queries. rewrite query_ids_relabel.
  apply filter_ext_elem_of. intros q _. by rewrite uniform_group_relabel.
Qed.

Lemma kept_items_relabel :
  kept_items (relabel f recs) = relabel_item f <$> kept_items recs.
Proof.
  unfold kept_items. rewrite usable_queries_relabel.
  induction (usable_queries recs) as [|q qs IH]; csimpl; [done|].
  by rewrite fmap_app, group_of_relabel, IH.
Qed.

Lemma kept_sizes_relabel : kept_sizes (relabel f recs) = kept_sizes recs.
Proof.
  unfold kept_sizes. rewrite usable_queries_relabel.
  apply list_fmap_ext. intros i q _.
  by rewrite group_of_relabel, length_fmap.
Qed.

End injective.

Lemma kept_labels_subseteq recs a :
  a ∈ (kept_items recs).*2 → a ∈ recs.*2.*2.
Proof.
  intros ([fs l]&->&(q&Hin&_)%elem_of_kept_items)%list_elem_of_fmap.
  apply list_elem_of_fmap. exists (fs, l). split; [done|].
  apply list_elem_of_fmap. by exists (q, (fs, l)).
Qed.

(** C10 (for labels within int32): [load_csv] never looks at the value of
    a label, only at whether two labels of a query are equal.  Take two
    files that parse into the same records up to a renaming [f] of the
    labels that keeps distinct labels distinct, all labels within int32,
    whether inside {0, 1, 2} or not.  Then the two runs of [load_csv] print
    the same, fail the same or succeed the same, drop the same queries and
    return the same features and group sizes, and the labels returned are
    renamed by [f]. *)
Theorem labels_are_opaque lines lines' recs f :
  parse_rows (DictReader lines) = Ok recs →
  parse_rows (DictReader lines') = Ok (relabel f recs) →
  (∀ a b, a ∈ recs.*2.*2 → b ∈ recs.*2.*2 → f a = f b → a = b) →
  Forall in_int32 (recs.*2.*2) →
  Forall in_int32 (f <$> recs.*2.*2) →
  load_csv lines' = relabel_output f (load_csv lines).
Proof.
  intros Hparse Hparse' Hinj Hint Hint'.
  destruct (decide (usable_queries recs = [])) as [Hnone|Hsome].
  - rewrite (load_csv_no_usable _ _ Hparse Hnone).
    rewrite (load_csv_no_usable _ _ Hparse')
      by (by rewrite usable_queries_relabel).
    by rewrite uniform_queries_relabel.
  - rewrite (load_csv_usable _ _ Hparse Hsome).
    rewrite (load_csv_usable _ _ Hparse')
      by (by rewrite usable_queries_relabel).
    rewrite uniform_queries_relabel, kept_sizes_relabel, kept_items_relabel
      by done.
    assert ((relabel_item f <$> kept_items recs).*1 = (kept_items recs).*1)
      as -> by (rewrite <-list_fmap_compose; by apply list_fmap_ext).
    assert ((relabel_item f <$> kept_items recs).*2 = f <$> (kept_items recs).*2)
      as -> by (rewrite <-!list_fmap_compose; by apply list_fmap_ext).
    rewrite !np_array_int32_Ok; [done|..].
    + apply Forall_forall. intros a Ha. rewrite Forall_forall in Hint.
      by apply Hint, kept_labels_subseteq.
    + apply Forall_fmap, Forall_forall. intros a Ha.
      rewrite Forall_fmap, Forall_forall in Hint'.
      by apply Hint', kept_labels_subseteq.
Qed.

End relabel_claims.

(** * Further properties *)

(** ** What load_csv can end with *)

Section load_csv_outcomes.
Context `{Builtins} `{!Libraries}.
Implicit Types (recs : list (option string * (list float * Z))).






Lemma skipped_events_Stderr n :
  Forall is_Stderr (skipped_events n) ∧ (length (skipped_events n) ≤ 1)%nat.
Proof.
  unfold skipped_events. destruct (decide _); simpl; split; repeat constructor.
Qed.

(** [load_csv] only prints. *)
Lemma load_csv_events_Stderr lines : Forall is_Stderr (events (load_csv lines)).
Proof.
  destruct (parse_rows (DictReader lines)) as [recs|e] eqn:Hparse.
  2: { rewrite (load_csv_parse_Raise _ _ Hparse). constructor. }
  destruct (skipped_events_Stderr (length (uniform_queries recs))) as [Hev _].
  destruct (decide (usable_queries recs = [])) as [Hnone|Hsome].
  - rewrite (load_csv_no_usable _ _ Hparse Hnone). simpl.
    apply Forall_app. split; [done|by repeat constructor].
  - by rewrite (load_csv_usable _ _ Hparse Hsome).
Qed.


(** X2: [load_csv] returns a training set exactly when every row parses, some
    query has two distinct labels, and the labels of the kept queries lie
    within int32. *)
Theorem load_csv_succeeds_iff lines :
  (∃ ts, outcome (load_csv lines) = Ok ts) ↔
  ∃ recs, parse_rows (DictReader lines) = Ok recs ∧
          usable_queries recs ≠ [] ∧
          Forall in_int32 (kept_items recs).*2.
Proof.
  split.
  - intros [[[X y] g] (recs&?&?&?&_)%load_csv_Ok_inv]. by exists recs.
  - intros (recs&Hparse&Hsome&Hint).
    rewrite (load_csv_usable _ _ Hparse Hsome), (np_array_int32_Ok _ Hint).
    by eexists.
Qed.

(** X3: A label outside int32 in a kept query: [load_csv] reports the skipped
    queries and then raises the OverflowError of the first such label in
    output order.  Labels of dropped queries are never converted. *)
Theorem load_csv_label_overflow lines recs i v :
  parse_rows (DictReader lines) = Ok recs →
  list_find (λ y, ¬ in_int32 y) (kept_items recs).*2 = Some (i, v) →
  load_csv lines =
  MkIO (skipped_events (length (uniform_queries recs)))
       (Raise (OverflowError v)).
Proof.
  intros Hparse Hfind.
  assert (usable_queries recs ≠ []) as Hsome.
  { intros Hnone%kept_items_nil. by rewrite Hnone in Hfind. }
  rewrite (load_csv_usable _ _ Hparse Hsome).
  unfold np_array_int32, in_int32 in *. by rewrite Hfind.
Qed.

End load_csv_outcomes.

(** ** Which field fails, and what a line contributes *)

Lemma foldl_insert_lookup_ne (l : list (string * option string))
    (d : DictRow) col :
  col ∉ l.*1 →
  foldl (λ d kv, <[kv.1 := kv.2]> d) d l !! col = d !! col.
Proof.
  revert d. induction l as [|[k v] l IH]; intros d Hl; csimpl in *; [done|].
  apply not_elem_of_cons in Hl as [Hk Hl].
  rewrite IH by done. by rewrite lookup_insert_ne.
Qed.

Lemma foldl_insert_zip_lookup (ks : list string) (vs : list (option string))
    (d : DictRow) i k v :
  NoDup ks → ks !! i = Some k → vs !! i = Some v →
  foldl (λ d kv, <[kv.1 := kv.2]> d) d (zip ks vs) !! k = Some v.
Proof.
  intros Hnd. revert d vs i.
  induction Hnd as [|a ks Ha Hnd IH]; intros d [|b vs] [|i] Hk Hv;
    simplify_eq/=.
  - rewrite foldl_insert_lookup_ne.
    + by rewrite lookup_insert_eq.
    + intros Hin. apply Ha. by eapply elem_of_zip_fst.
  - by eapply IH.
Qed.

(** The cell under a header name: the cell of the line at the position of
    the name, [None] when the line ends before it. *)
Lemma make_row_lookup fieldnames row i k :
  NoDup fieldnames → fieldnames !! i = Some k →
  make_row fieldnames row !! k = Some (row !! i).
Proof.
  intros Hnd Hk. unfold make_row.
  apply (foldl_insert_zip_lookup _ _ _ i); [done..|].
  apply lookup_lt_Some in Hk as Hi.
  destruct (decide (i < length row)) as [Hlt|Hge].
  - rewrite lookup_app_l by (by rewrite length_fmap).
    rewrite list_lookup_fmap.
    destruct (lookup_lt_is_Some_2 row i Hlt) as [c ->]. done.
  - rewrite lookup_app_r by (rewrite length_fmap; lia).
    rewrite length_fmap, (lookup_ge_None_2 row i) by lia.
    rewrite lookup_replicate_2; [done|lia].
Qed.

Lemma foldl_insert_None_lookup (ks : list string) (d : DictRow) k :
  k ∈ ks →
  foldl (λ d kv, <[kv.1 := kv.2]> d) d ((λ k, (k, None)) <$> ks) !! k
  = Some None.
Proof.
  induction ks as [|k' ks IH] using rev_ind; [by intros ?%elem_of_nil|].
  intros Hk. rewrite fmap_app, foldl_app. simpl.
  destruct (decide (k' = k)) as [->|Hne]; [by rewrite lookup_insert_eq|].
  rewrite lookup_insert_ne by done.
  apply IH. apply elem_of_app in Hk as [Hk|Hk%list_elem_of_singleton]; done.
Qed.

(** The cell under a header name that stands past the end of the line is
    [None], also when the name stands in the header more than once: the
    padding is written last. *)
Lemma make_row_lookup_short fieldnames row j k :
  fieldnames !! j = Some k → (length row ≤ j)%nat →
  make_row fieldnames row !! k = Some None.
Proof.
  intros Hk Hlen. unfold make_row.
  apply lookup_lt_Some in Hk as Hj.
  cbv zeta.
  replace (zip fieldnames
             ((Some <$> row) ++
              replicate (length fieldnames - length row) None))
    with (zip (take (length row) fieldnames) (Some <$> row) ++
          ((λ k, (k, None : option string)) <$>
             drop (length row) fieldnames)).
  { rewrite foldl_app. apply foldl_insert_None_lookup.
    apply (list_elem_of_lookup_2 _ (j - length row)).
    rewrite lookup_drop, <-Hk. f_equal. lia. }
  rewrite <-(take_drop (length row) fieldnames) at 3.
  rewrite zip_with_app by (rewrite length_take, length_fmap; lia).
  f_equal. symmetry.
  apply (zip_with_replicate_r_eq pair). rewrite length_drop. lia.
Qed.

Lemma mapM_ext_elem_of {A B} (f g : A → PyResult B) l :
  (∀ x, x ∈ l → f x = g x) → mapM f l = mapM g l.
Proof.
  induction l as [|x l IH]; intros Hfg; [done|].
  change (mapM f (x :: l)) with (y ← f x; k ← mapM f l; mret (y :: k)).
  change (mapM g (x :: l)) with (y ← g x; k ← mapM g l; mret (y :: k)).
  rewrite (Hfg x) by (by left).
  rewrite IH by (intros; apply Hfg; by right). done.
Qed.

Section fields.
Context `{Builtins} `{!Libraries}.

(** [load_csv] is a function of the parsed rows. *)
Lemma load_csv_parse_rows_eq lines lines' :
  parse_rows (DictReader lines') = parse_rows (DictReader lines) →
  load_csv lines' = load_csv lines.
Proof.
  intros Heq. unfold load_csv. by rewrite !read_rows_parse_rows, Heq.
Qed.

Lemma parse_row_agree row row' :
  (∀ c, c ∈ REQUIRED_COLS → row !! c = row' !! c) →
  parse_row row' = parse_row row.
Proof.
  intros Hagree. unfold parse_row.
  assert (∀ c, c ∈ REQUIRED_COLS → getitem row' c = getitem row c) as Hget.
  { intros c Hc. unfold getitem. by rewrite (Hagree c Hc). }
  rewrite (Hget "qid") by (by left).
  rewrite (Hget "label") by (by right; left).
  rewrite (mapM_ext_elem_of (λ col, getitem row' col ≫= float_)
                            (λ col, getitem row col ≫= float_)); [done|].
  intros c Hc. rewrite Hget; [done|]. by do 2 right.
Qed.

(** X6: [load_csv] reads nothing of a row but its nine required fields: two
    files whose rows agree, one by one, on these fields give the same run,
    whatever other columns they hold and in whatever order the columns
    stand. *)
Theorem load_csv_reads_required_only lines lines' :
  Forall2 (λ row row', ∀ c, c ∈ REQUIRED_COLS → row !! c = row' !! c)
          (DictReader lines) (DictReader lines') →
  load_csv lines' = load_csv lines.
Proof.
  intros Hrows. apply load_csv_parse_rows_eq. unfold parse_rows.
  induction Hrows as [|row row' reader reader' Hrow _ IH]; [done|].
  change (mapM parse_row (row' :: reader'))
    with (y ← parse_row row'; k ← mapM parse_row reader'; mret (y :: k)).
  change (mapM parse_row (row :: reader))
    with (y ← parse_row row; k ← mapM parse_row reader; mret (y :: k)).
  by rewrite (parse_row_agree row row' Hrow), IH.
Qed.

Lemma load_csv_first_bad_field lines i row before col after :
  DictReader lines !! i = Some row →
  Forall (λ r, ∃ rec, parse_row r = Ok rec) (take i (DictReader lines)) →
  REQUIRED_COLS = before ++ col :: after →
  Forall (field_ok row) before →
  ¬ field_ok row col →
  load_csv lines = MkIO [] (Raise (field_exn row col)).
Proof.
  intros Hi Hgood Hcols Hbefore Hbad.
  apply load_csv_parse_Raise.
  eapply parse_rows_first_Raise; [done..|].
  rewrite (parse_row_first_failure row before col after Hcols Hbefore).
  unfold field_exn, field_ok in *.
  destruct (row !! col) as [[text|]|]; [|by rewrite decide_False|done].
  by rewrite decide_False.
Qed.

(** X4: The exception [load_csv] ends with is that of the first field, in
    reading order, of the first row that is not fine: KeyError for a key
    that is absent, TypeError for a cell cut off by a short line, ValueError
    for a text that is rejected.  Nothing is printed and the rows after it
    are not looked at: [main] stops after its first line. *)
Theorem first_bad_field_decides lines i row before col after args :
  DictReader lines !! i = Some row →
  Forall (λ r, ∃ rec, parse_row r = Ok rec) (take i (DictReader lines)) →
  REQUIRED_COLS = before ++ col :: after →
  Forall (field_ok row) before →
  ¬ field_ok row col →
  load_csv lines = MkIO [] (Raise (field_exn row col)) ∧
  main args lines = MkIO [Stderr (loading_message args)]
                         (Raise (field_exn row col)).
Proof.
  intros Hi Hgood Hcols Hbefore Hbad.
  pose proof (load_csv_first_bad_field _ _ _ _ _ _ Hi Hgood Hcols Hbefore Hbad)
    as Hload.
  split; [done|].
  rewrite (main_load_csv_Raise args lines (field_exn row col))
    by (by rewrite Hload).
  by rewrite Hload.
Qed.

(** X5: A line that ends before the column of a label or feature: [int()] or
    [float()] is applied to [None] and raises TypeError, whatever the header
    (names may repeat).  Here the line is the first of the file and its
    fields read before [col] are fine. *)
Theorem short_line_TypeError header r rest j before col after :
  r ≠ [] →
  header !! j = Some col → (length r ≤ j)%nat →
  REQUIRED_COLS = before ++ col :: after → col ≠ "qid" →
  Forall (field_ok (make_row header r)) before →
  load_csv (header :: r :: rest) = MkIO [] (Raise (TypeError (callee_of col))).
Proof.
  intros Hr Hj Hlen Hcols Hq Hbefore.
  pose proof (make_row_lookup_short header r j col Hj Hlen) as Hcell.
  rewrite (load_csv_first_bad_field (header :: r :: rest) 0
             (make_row header r) before col after).
  - unfold field_exn. by rewrite Hcell.
  - simpl. by rewrite filter_cons_True.
  - apply Forall_nil_2.
  - done.
  - done.
  - unfold field_ok. by rewrite Hcell.
Qed.

End fields.

(** ** The order of columns and the order of rows *)

Lemma zip_Permutation_fst {A B} (ks ks' : list A) (vs vs' : list B) :
  length vs = length ks → length vs' = length ks' →
  zip ks' vs' ≡ₚ zip ks vs → ks' ≡ₚ ks.
Proof.
  intros Hlen Hlen' Hperm.
  rewrite <-(fst_zip ks vs), <-(fst_zip ks' vs') by lia.
  by rewrite Hperm.
Qed.

(** the same cells under the same names, in another column order *)
Lemma make_row_permuted header header' r r' :
  NoDup header →
  length r = length header → length r' = length header' →
  zip header' r' ≡ₚ zip header r →
  make_row header' r' = make_row header r.
Proof.
  intros Hnd Hlen Hlen' Hperm.
  pose proof (zip_Permutation_fst _ _ _ _ Hlen Hlen' Hperm) as Hheader.
  assert (NoDup header') as Hnd' by (by rewrite Hheader).
  apply map_eq. intros k.
  destruct (decide (k ∈ header)) as [Hk|Hk].
  - apply list_elem_of_lookup in Hk as [i Hi].
    rewrite (make_row_lookup header r i k Hnd Hi).
    destruct (lookup_lt_is_Some_2 r i) as [v Hv].
    { rewrite Hlen. by eapply lookup_lt_Some. }
    assert ((k, v) ∈ zip header' r') as Hin.
    { rewrite Hperm. apply elem_of_lookup_zip_with. by exists i, k, v. }
    apply elem_of_lookup_zip_with in Hin as (i'&k'&v'&[= <- <-]&Hi'&Hv').
    rewrite (make_row_lookup header' r' i' k Hnd' Hi'). by rewrite Hv, Hv'.
  - rewrite !make_row_lookup_None; [done..|by rewrite Hheader].
Qed.

Lemma zip_fmap_fst_snd {A B C} (f : A → C) (l : list (A * B)) :
  zip (f <$> l.*1) (l.*2) = (λ i, (f i.1, i.2)) <$> l.
Proof. induction l as [|[a b] l IH]; csimpl; [done|]. by rewrite IH. Qed.

Section shuffle.
Context {K A : Type} `{EqDecision K}.
Implicit Types recs : list (K * (A * Z)).

Lemma group_of_Permutation q recs recs' :
  recs ≡ₚ recs' → group_of q recs ≡ₚ group_of q recs'.
Proof. intros Hperm. unfold group_of. by rewrite Hperm. Qed.

Lemma uniform_labels_Permutation (items items' : list (A * Z)) :
  items ≡ₚ items' → uniform_labels items ↔ uniform_labels items'.
Proof.
  intros Hperm. unfold uniform_labels.
  split; intros Hu i j Hi Hj; apply Hu;
    by (rewrite Hperm || rewrite <-Hperm).
Qed.

Lemma uniform_group_Permutation q recs recs' :
  recs ≡ₚ recs' →
  uniform_labels (group_of q recs) ↔ uniform_labels (group_of q recs').
Proof. intros Hperm. by apply uniform_labels_Permutation, group_of_Permutation. Qed.

Lemma query_ids_Permutation recs recs' :
  recs ≡ₚ recs' → query_ids recs ≡ₚ query_ids recs'.
Proof.
  intros Hperm. apply NoDup_Permutation; [apply NoDup_first_occurrences..|].
  intros q. unfold query_ids. rewrite !elem_of_first_occurrences.
  by rewrite Hperm.
Qed.

Lemma usable_queries_Permutation recs recs' :
  recs ≡ₚ recs' → usable_queries recs ≡ₚ usable_queries recs'.
Proof.
  intros Hperm. unfold usable_queries.
  apply NoDup_Permutation; [apply NoDup_filter, NoDup_first_occurrences..|].
  intros q. rewrite !list_elem_of_filter.
  by rewrite (uniform_group_Permutation q _ _ Hperm),
             (query_ids_Permutation _ _ Hperm).
Qed.

Lemma uniform_queries_Permutation recs recs' :
  recs ≡ₚ recs' → uniform_queries recs ≡ₚ uniform_queries recs'.
Proof.
  intros Hperm. unfold uniform_queries.
  apply NoDup_Permutation; [apply NoDup_filter, NoDup_first_occurrences..|].
  intros q. rewrite !list_elem_of_filter.
  by rewrite (uniform_group_Permutation q _ _ Hperm),
             (query_ids_Permutation _ _ Hperm).
Qed.

Lemma kept_items_shuffle recs recs' :
  recs ≡ₚ recs' → kept_items recs ≡ₚ kept_items recs'.
Proof.
  intros Hperm. rewrite !kept_items_Permutation.
  rewrite (filter_ext_elem_of
             (λ r, ¬ uniform_labels (group_of r.1 recs))
             (λ r, ¬ uniform_labels (group_of r.1 recs')))
    by (intros r _; by rewrite (uniform_group_Permutation _ _ _ Hperm)).
  by rewrite Hperm.
Qed.

Lemma kept_sizes_shuffle recs recs' :
  recs ≡ₚ recs' → kept_sizes recs ≡ₚ kept_sizes recs'.
Proof.
  intros Hperm. unfold kept_sizes.
  rewrite (usable_queries_Permutation _ _ Hperm).
  assert ((λ q, length (group_of q recs)) <$> usable_queries recs' =
          (λ q, length (group_of q recs')) <$> usable_queries recs') as ->;
    [|done].
  apply list_fmap_ext. intros i q _.
  by rewrite (group_of_Permutation q _ _ Hperm).
Qed.

End shuffle.

Section orders.
Context `{Builtins} `{!Libraries}.
Implicit Types (recs : list (option string * (list float * Z))).

(** X7: The columns of the file may stand in any order: a file with a header
    of distinct names and full lines, and the same file with its columns
    permuted, give the same run. *)
Theorem column_order_irrelevant header header' rows rows' :
  NoDup header →
  Forall2 (λ r r', length r = length header ∧ length r' = length header' ∧
                   zip header' r' ≡ₚ zip header r) rows rows' →
  load_csv (header' :: rows') = load_csv (header :: rows).
Proof.
  intros Hnd Hrows. apply load_csv_parse_rows_eq. f_equal. simpl.
  induction Hrows as [|r r' rows rows' (Hlen&Hlen'&Hperm) _ IH]; [done|].
  assert (length r' = length r) as Hrr.
  { apply Permutation_length in Hperm.
    rewrite !length_zip_with in Hperm. lia. }
  rewrite !filter_cons. destruct r as [|c r], r' as [|c' r']; try done.
  rewrite decide_True by done. rewrite decide_True by done. csimpl.
  by rewrite IH, (make_row_permuted header header' (c :: r) (c' :: r')).
Qed.

(** X8: Shuffling the rows of the file changes neither what is printed, nor
    whether a training set is returned, nor, up to order, the rows and the
    group sizes returned. *)
Theorem row_order_up_to_permutation lines lines' recs recs' :
  parse_rows (DictReader lines) = Ok recs →
  parse_rows (DictReader lines') = Ok recs' →
  recs ≡ₚ recs' →
  events (load_csv lines') = events (load_csv lines) ∧
  ((∃ ts, outcome (load_csv lines) = Ok ts) ↔
   (∃ ts, outcome (load_csv lines') = Ok ts)) ∧
  ∀ X y g X' y' g',
    outcome (load_csv lines) = Ok (X, y, g) →
    outcome (load_csv lines') = Ok (X', y', g') →
    zip (array_rows X') (array_elems y') ≡ₚ zip (array_rows X) (array_elems y) ∧
    g' ≡ₚ g.
Proof.
  intros Hparse Hparse' Hperm.
  pose proof (Permutation_length (uniform_queries_Permutation _ _ Hperm)) as Hn.
  pose proof (usable_queries_Permutation _ _ Hperm) as Husable.
  pose proof (kept_items_shuffle _ _ Hperm) as Hkept.
  destruct (decide (usable_queries recs = [])) as [Hnone|Hsome].
  - assert (usable_queries recs' = []) as Hnone'.
    { symmetry. apply Permutation_nil_l. by rewrite <-Hnone. }
    rewrite (load_csv_no_usable _ _ Hparse Hnone),
            (load_csv_no_usable _ _ Hparse' Hnone'), Hn. simpl.
    split; [done|]. split; [|done]. split; by intros [? ?].
  - assert (usable_queries recs' ≠ []) as Hsome'.
    { intros Hnil. apply Hsome, Permutation_nil_r. by rewrite <-Hnil. }
    rewrite (load_csv_usable _ _ Hparse Hsome),
            (load_csv_usable _ _ Hparse' Hsome'), Hn. simpl.
    split; [done|].
    destruct (decide (Forall in_int32 (kept_items recs).*2)) as [Hint|Hint].
    + assert (Forall in_int32 (kept_items recs').*2) as Hint'
        by (by rewrite <-Hkept).
      rewrite !np_array_int32_Ok by done. simpl.
      split; [split; by eexists|].
      intros X y g X' y' g' [= <- <- <-] [= <- <- <-]. simpl.
      rewrite !zip_fmap_fst_snd. split.
      * by rewrite Hkept.
      * symmetry. by apply kept_sizes_shuffle.
    + assert (¬ Forall in_int32 (kept_items recs').*2) as Hint'
        by (by rewrite <-Hkept).
      destruct (np_array_int32 (kept_items recs).*2) as [a|e] eqn:Hy.
      { by apply np_array_int32_inv in Hy as [_ ?]. }
      destruct (np_array_int32 (kept_items recs').*2) as [a'|e'] eqn:Hy'.
      { by apply np_array_int32_inv in Hy' as [_ ?]. }
      simpl. split; [split; by intros [? ?]|done].
Qed.

End orders.

(** ** main: from the loaded set to the saved model *)

Section main_runs.
Context `{Builtins} `{!Libraries}.

Lemma events_bind {A B} (m : IO A) (f : A → IO B) :
  events (m ≫= f) =
  events m ++ match outcome m with Ok a => events (f a) | Raise _ => [] end.
Proof.
  unfold mbind, IO_bind. destruct (outcome m); simpl; [done|].
  by rewrite app_nil_r.
Qed.

Lemma outcome_bind {A B} (m : IO A) (f : A → IO B) :
  outcome (m ≫= f) =
  match outcome m with Ok a => outcome (f a) | Raise e => Raise e end.
Proof. unfold mbind, IO_bind. by destruct (outcome m). Qed.

Lemma IO_bind_outcome_Ok {A B} (m : IO A) (f : A → IO B) a :
  outcome m = Ok a → m ≫= f = MkIO (events m ++ events (f a)) (outcome (f a)).
Proof. intros Hm. unfold mbind, IO_bind. by rewrite Hm. Qed.

Lemma IO_eq {A} (m m' : IO A) :
  events m = events m' → outcome m = outcome m' → m = m'.
Proof. destruct m, m'. simpl. by intros -> ->. Qed.

(** [upload_to_s3], case by case. *)
Lemma upload_to_s3_cases local_path bucket key :
  upload_to_s3 local_path bucket key =
  match boto3_client with
  | None => MkIO [Stderr no_boto3_message] (Ok ())
  | Some (Raise e) => MkIO [] (Raise e)
  | Some (Ok upload_file) =>
      MkIO ([Stderr ("Uploading model to s3://" +:+ bucket +:+ "/" +:+ key +:+
                     " ...");
             UploadFile local_path bucket key] ++
            match upload_file local_path bucket key with
            | Ok _ => [Stderr "Model uploaded successfully."]
            | Raise _ => []
            end)
           (upload_file local_path bucket key)
  end.
Proof.
  unfold upload_to_s3. destruct boto3_client as [[upload_file|e]|]; [|done..].
  rewrite IO_bind_lift_Ok. unfold print_stderr, call.
  apply IO_eq.
  - rewrite !events_bind. simpl.
    by destruct (upload_file local_path bucket key) as [[]|].
  - rewrite !outcome_bind. simpl.
    by destruct (upload_file local_path bucket key) as [[]|].
Qed.

(** [main] after a successful [load_csv], case by case. *)
Lemma main_cases args lines X y g :
  outcome (load_csv lines) = Ok (X, y, g) →
  main args lines =
  match train_result (dataset_of X y g) with
  | Raise e => MkIO (trained_events args lines X y g) (Raise e)
  | Ok booster =>
      match mkdir_parent (output args) with
      | Raise e =>
          MkIO (trained_events args lines X y g ++ [Mkdir (output args)])
               (Raise e)
      | Ok _ =>
          match save_model booster (path_str (output args)) with
          | Raise e =>
              MkIO (trained_events args lines X y g ++
                    [Mkdir (output args);
                     SaveModel booster (path_str (output args))])
                   (Raise e)
          | Ok _ =>
              let last :=
                if decide (upload_requested args) then
                  upload_to_s3 (path_str (output args)) (s3_bucket args)
                               (s3_key args)
                else print_stderr tip_message in
              MkIO (trained_events args lines X y g ++
                    saved_events args booster ++ events last)
                   (outcome last)
          end
      end
  end.
Proof.
  intros Hload.
  pose proof (load_csv_Ok_inv _ _ _ _ Hload) as (recs&_&_&_&_&HX&_&_).
  assert (shape_at X 1 = Ok (length FEATURE_COLS)) as Hshape by (by subst X).
  pose proof (train_unfold X y g _ Hshape) as Htrain. simpl in Htrain.
  unfold main.
  rewrite (IO_bind_outcome_Ok (load_csv lines) _ (X, y, g) Hload).
  cbv beta iota. rewrite Hshape, IO_bind_lift_Ok, Htrain. clear Htrain.
  fold (dataset_of X y g). fold (train_call (dataset_of X y g)).
  fold (train_result (dataset_of X y g)).
  fold (upload_requested args).
  unfold trained_events, saved_events, print_stderr, call.
  fold (loading_message args).
  fold (loaded_message (len y) (length g) (length FEATURE_COLS)).
  fold (training_message (len y) (length g) (length FEATURE_COLS)).
  fold (saved_message args).
  unfold mbind, IO_bind. simpl.
  destruct (train_result (dataset_of X y g)) as [booster|e]; simpl.
  2: { by rewrite <-?app_assoc. }
  destruct (mkdir_parent (output args)) as [[]|e]; simpl.
  2: { by rewrite <-?app_assoc. }
  destruct (save_model booster (path_str (output args))) as [[]|e]; simpl.
  2: { by rewrite <-?app_assoc. }
  by rewrite <-?app_assoc.
Qed.

(** X10: After a successful [load_csv], [main] always calls the trainer on
    the set it loaded: a feature matrix with one column per feature name and
    one row per label, and group sizes that sum to the number of rows. *)
Theorem main_trains_on_loaded_set args lines X y g :
  outcome (load_csv lines) = Ok (X, y, g) →
  (∃ rest, events (main args lines) = trained_events args lines X y g ++ rest) ∧
  shape X = [len y; length (ds_feature_name (dataset_of X y g))] ∧
  sum_list g = len y.
Proof.
  intros Hload. split.
  - rewrite (main_cases args lines X y g Hload).
    destruct (train_result (dataset_of X y g)) as [booster|e];
      [|exists []; by rewrite app_nil_r].
    destruct (mkdir_parent (output args)) as [[]|e]; [|by eexists].
    destruct (save_model booster (path_str (output args))) as [[]|e];
      by eexists.
  - apply load_csv_Ok_inv in Hload as (recs&_&_&_&_&->&->&->). simpl.
    unfold kept_sizes, kept_items.
    by rewrite sum_list_group_sizes, !length_fmap.
Qed.

(** X11: When the trainer raises, [main] ends with its exception right after
    the call: no directory is made, no model saved, nothing uploaded. *)
Theorem training_failure_writes_nothing args lines X y g e :
  outcome (load_csv lines) = Ok (X, y, g) →
  train_result (dataset_of X y g) = Raise e →
  main args lines = MkIO (trained_events args lines X y g) (Raise e) ∧
  Forall (λ ev, ¬ is_Mkdir ev ∧ ¬ is_SaveModel ev ∧ ¬ is_UploadFile ev)
         (events (main args lines)).
Proof.
  intros Hload Htrain.
  rewrite (main_cases args lines X y g Hload), Htrain.
  split; [done|]. simpl. unfold trained_events.
  constructor; [simpl; tauto|]. apply Forall_app. split.
  - eapply Forall_impl; [apply load_csv_events_Stderr|].
    intros ev Hev. destruct ev; simpl in *; tauto.
  - repeat constructor; simpl; tauto.
Qed.

(** X12: After a successful training, when making the output directory
    raises, [main] ends with that exception right after the [mkdir] call:
    [save_model] is not called.  When the directory is made and saving the
    model raises, [main] ends with that exception right after the
    [save_model] call.  In both cases it prints no confirmation and starts
    no upload. *)
Theorem save_failure_ends_run args lines X y g booster :
  outcome (load_csv lines) = Ok (X, y, g) →
  train_result (dataset_of X y g) = Ok booster →
  (∀ e, mkdir_parent (output args) = Raise e →
     main args lines =
       MkIO (trained_events args lines X y g ++ [Mkdir (output args)])
            (Raise e)) ∧
  (∀ e, mkdir_parent (output args) = Ok () →
     save_model booster (path_str (output args)) = Raise e →
     main args lines =
       MkIO (trained_events args lines X y g ++
             [Mkdir (output args);
              SaveModel booster (path_str (output args))])
            (Raise e)).
Proof.
  intros Hload Htrain.
  rewrite (main_cases args lines X y g Hload), Htrain.
  split.
  - by intros e ->.
  - by intros e -> ->.
Qed.

(** X13: A run that loads, trains and saves, with no upload asked for: [main]
    makes the directory, saves the booster the trainer returned under the
    output path, confirms, prints the tip and returns. *)
Theorem local_run_saves_model args lines X y g booster :
  outcome (load_csv lines) = Ok (X, y, g) →
  train_result (dataset_of X y g) = Ok booster →
  mkdir_parent (output args) = Ok () →
  save_model booster (path_str (output args)) = Ok () →
  ¬ upload_requested args →
  main args lines =
  MkIO (trained_events args lines X y g ++ saved_events args booster ++
        [Stderr tip_message])
       (Ok ()).
Proof.
  intros Hload Htrain Hmkdir Hsave Hno.
  rewrite (main_cases args lines X y g Hload), Htrain, Hmkdir, Hsave.
  by rewrite decide_False.
Qed.

(** X14: An upload is asked for and boto3 cannot be imported: [main] prints
    the warning after saving the model and still returns normally; no upload
    is started. *)
Theorem upload_without_boto3_warns args lines X y g booster :
  outcome (load_csv lines) = Ok (X, y, g) →
  train_result (dataset_of X y g) = Ok booster →
  mkdir_parent (output args) = Ok () →
  save_model booster (path_str (output args)) = Ok () →
  upload_requested args →
  boto3_client = None →
  main args lines =
  MkIO (trained_events args lines X y g ++ saved_events args booster ++
        [Stderr no_boto3_message])
       (Ok ()).
Proof.
  intros Hload Htrain Hmkdir Hsave Hyes Hboto.
  rewrite (main_cases args lines X y g Hload), Htrain, Hmkdir, Hsave.
  rewrite decide_True by done.
  by rewrite upload_to_s3_cases, Hboto.
Qed.

(** X15: An upload is asked for and boto3 gives a client: after saving, [main]
    announces the upload and calls [upload_file] on the saved path with the
    bucket and key of the command line.  The outcome of [main] is the
    outcome of that call: its exception is not caught, and the success line
    is printed only when it returns. *)
Theorem upload_outcome_is_main_outcome args lines X y g booster upload_file :
  outcome (load_csv lines) = Ok (X, y, g) →
  train_result (dataset_of X y g) = Ok booster →
  mkdir_parent (output args) = Ok () →
  save_model booster (path_str (output args)) = Ok () →
  upload_requested args →
  boto3_client = Some (Ok upload_file) →
  let result :=
    upload_file (path_str (output args)) (s3_bucket args) (s3_key args) in
  main args lines =
  MkIO (trained_events args lines X y g ++ saved_events args booster ++
        [Stderr (uploading_message args);
         UploadFile (path_str (output args)) (s3_bucket args) (s3_key args)] ++
        match result with
        | Ok _ => [Stderr "Model uploaded successfully."]
        | Raise _ => []
        end)
       result.
Proof.
  intros Hload Htrain Hmkdir Hsave Hyes Hboto result.
  rewrite (main_cases args lines X y g Hload), Htrain, Hmkdir, Hsave.
  rewrite decide_True by done.
  by rewrite upload_to_s3_cases, Hboto.
Qed.

Lemma elem_of_trained_events args lines X y g ev :
  ev ∈ trained_events args lines X y g → is_Stderr ev ∨ is_LgbTrain ev.
Proof.
  unfold trained_events.
  rewrite elem_of_cons, elem_of_app, !elem_of_cons, elem_of_nil.
  intros [->|[Hload|[->|[->|[->|[]]]]]]; simpl; try tauto.
  left. pose proof (load_csv_events_Stderr lines) as Hall.
  rewrite Forall_forall in Hall. by apply Hall.
Qed.

Lemma elem_of_upload_to_s3_events local_path bucket key ev :
  ev ∈ events (upload_to_s3 local_path bucket key) →
  is_Stderr ev ∨ ev = UploadFile local_path bucket key.
Proof.
  rewrite upload_to_s3_cases.
  destruct boto3_client as [[upload_file|e]|]; simpl.
  - destruct (upload_file local_path bucket key); simpl;
      rewrite !elem_of_cons, elem_of_nil; intros; destruct_or!;
      subst; simpl; tauto.
  - by intros ?%elem_of_nil.
  - rewrite elem_of_cons, elem_of_nil. intros [->|[]]. by left.
Qed.

(** X16: Whatever the file and the libraries do: [main] saves no model but the
    booster the trainer returned for the loaded set, under the output path
    and after the directory was made; and it uploads nothing but the file it
    has just saved, to the bucket and key of the command line, and only when
    both were given. *)
Theorem main_saves_trained_uploads_saved args lines :
  (∀ booster path,
     SaveModel booster path ∈ events (main args lines) →
     path = path_str (output args) ∧
     mkdir_parent (output args) = Ok () ∧
     ∃ X y g, outcome (load_csv lines) = Ok (X, y, g) ∧
              train_result (dataset_of X y g) = Ok booster) ∧
  (∀ local_path bucket key,
     UploadFile local_path bucket key ∈ events (main args lines) →
     upload_requested args ∧
     local_path = path_str (output args) ∧
     bucket = s3_bucket args ∧ key = s3_key args ∧
     ∃ booster, SaveModel booster local_path ∈ events (main args lines) ∧
                save_model booster local_path = Ok ()).
Proof.
  destruct (outcome (load_csv lines)) as [[[X y] g]|e] eqn:Hload.
  2: { rewrite (main_load_csv_Raise args lines e Hload). simpl.
       pose proof (load_csv_events_Stderr lines) as Hall.
       rewrite Forall_forall in Hall.
       split; intros *; rewrite elem_of_cons; intros [?|Hin%Hall]; done. }
  rewrite (main_cases args lines X y g Hload).
  pose proof (elem_of_trained_events args lines X y g) as Htrained.
  destruct (train_result (dataset_of X y g)) as [booster|e] eqn:Htrain; cbn [events outcome].
  { destruct (mkdir_parent (output args)) as [[]|e] eqn:Hmkdir; cbn [events outcome].
    - destruct (save_model booster (path_str (output args))) as [[]|e]
        eqn:Hsave; cbn [events outcome].
      + split.
        * intros b p. unfold saved_events.
          rewrite !elem_of_app, !elem_of_cons, elem_of_nil.
          intros [Hin%Htrained|[[?|[[= -> ->]|[?|[]]]]|Hin]];
            try done; [by destruct Hin| |].
          { split; [done|]. split; [done|]. by exists X, y, g. }
          exfalso. destruct (decide (upload_requested args)).
          -- by apply elem_of_upload_to_s3_events in Hin as [?|?].
          -- simpl in Hin. by apply list_elem_of_singleton in Hin.
        * intros l bk k. unfold saved_events.
          rewrite !elem_of_app, !elem_of_cons, elem_of_nil.
          intros [Hin%Htrained|[[?|[?|[?|[]]]]|Hin]];
            try done; [by destruct Hin|].
          destruct (decide (upload_requested args)) as [Hyes|Hno].
          -- apply elem_of_upload_to_s3_events in Hin as [?|[= -> -> ->]];
               [done|].
             do 4 (split; [done|]). exists booster. split; [|done].
             rewrite elem_of_app. right. rewrite elem_of_app. left.
             unfold saved_events. rewrite !elem_of_cons. right. by left.
          -- simpl in Hin. by apply list_elem_of_singleton in Hin.
      + split; intros *; rewrite elem_of_app, !elem_of_cons, elem_of_nil.
        * intros [Hin%Htrained|[?|[[= -> ->]|[]]]]; try done;
            [by destruct Hin|].
          split; [done|]. split; [done|]. by exists X, y, g.
        * intros [Hin%Htrained|[?|[?|[]]]]; try done. by destruct Hin.
    - split; intros *; rewrite elem_of_app, !elem_of_cons, elem_of_nil;
        intros [Hin%Htrained|[?|[]]]; try done; by destruct Hin. }
  split; intros * Hin%Htrained; by destruct Hin.
Qed.

End main_runs.

(** ** More rows *)

Lemma mapM_app_Ok_inv {A B} (f : A → PyResult B) l1 l2 k :
  mapM f (l1 ++ l2) = Ok k →
  ∃ k1 k2, mapM f l1 = Ok k1 ∧ mapM f l2 = Ok k2 ∧ k = k1 ++ k2.
Proof.
  revert k. induction l1 as [|x l1 IH]; intros k.
  - intros Hk. by exists [], k.
  - change (mapM f ((x :: l1) ++ l2))
      with (y ← f x; k ← mapM f (l1 ++ l2); mret (y :: k)).
    change (mapM f (x :: l1)) with (y ← f x; k ← mapM f l1; mret (y :: k)).
    destruct (f x) as [y|e]; [|done]. rewrite !bind_Ok.
    destruct (mapM f (l1 ++ l2)) as [k'|e] eqn:Hk'; [|done].
    rewrite bind_Ok. intros [= <-].
    destruct (IH k' eq_refl) as (k1&k2&->&->&->).
    by exists (y :: k1), k2.
Qed.

Lemma filter_sublist_impl {A} (P Q : A → Prop)
    `{∀ x, Decision (P x)} `{∀ x, Decision (Q x)} (l : list A) :
  (∀ x, x ∈ l → P x → Q x) → filter P l `sublist_of` filter Q l.
Proof.
  induction l as [|x l IH]; intros HPQ; [done|].
  rewrite !filter_cons.
  assert (filter P l `sublist_of` filter Q l) as Hl
    by (apply IH; intros; apply HPQ; [by right|done]).
  destruct (decide (P x)) as [HP|HP].
  - rewrite decide_True by (apply HPQ; [by left|done]). by constructor.
  - destruct (decide (Q x)); [by constructor|done].
Qed.

Section more_rows.
Context {K A : Type} `{EqDecision K}.
Implicit Types recs more : list (K * (A * Z)).

Lemma group_of_app q recs more :
  group_of q (recs ++ more) = group_of q recs ++ group_of q more.
Proof. unfold group_of. by rewrite filter_app, fmap_app. Qed.

Lemma uniform_labels_app_l (items more : list (A * Z)) :
  uniform_labels (items ++ more) → uniform_labels items.
Proof.
  intros Hu i j Hi Hj. apply Hu; apply elem_of_app; by left.
Qed.

Lemma first_occurrences_app (ks ks' : list K) :
  first_occurrences (ks ++ ks') =
  first_occurrences ks ++ filter (λ k, k ∉ ks) (first_occurrences ks').
Proof.
  induction ks as [|a ks IH]; simpl.
  - rewrite (filter_ext_elem_of _ (λ _, True)).
    + induction (first_occurrences ks') as [|k l IHl]; [done|].
      rewrite filter_cons_True by done. by f_equal.
    + intros k _. split; [done|]. intros _ Hk. by apply elem_of_nil in Hk.
  - rewrite IH, filter_app, list_filter_filter. do 2 f_equal.
    apply filter_ext_elem_of. intros k _. rewrite not_elem_of_cons. tauto.
Qed.

(** the queries kept from a file are kept, in the same order, from the
    file with rows added at its end *)
Lemma usable_queries_app_sublist recs more :
  usable_queries recs `sublist_of` usable_queries (recs ++ more).
Proof.
  unfold usable_queries, query_ids.
  rewrite fmap_app, first_occurrences_app, filter_app.
  apply sublist_inserts_r, filter_sublist_impl.
  intros q _ Hq Hu. apply Hq. rewrite group_of_app in Hu.
  by eapply uniform_labels_app_l.
Qed.

Lemma kept_items_app_length recs more :
  (length (kept_items recs) ≤ length (kept_items (recs ++ more)))%nat.
Proof.
  rewrite (Permutation_length (kept_items_Permutation recs)).
  rewrite (Permutation_length (kept_items_Permutation (recs ++ more))).
  rewrite !length_fmap, filter_app, length_app.
  etrans; [|apply Nat.le_add_r].
  apply sublist_length, filter_sublist_impl.
  intros r _ Hr Hu. apply Hr. rewrite group_of_app in Hu.
  by eapply uniform_labels_app_l.
Qed.

End more_rows.

Section more_rows_load.
Context `{Builtins} `{!Libraries}.

(** X9: Rows added at the end of a file that loads, when they parse and all
    labels lie within int32: the longer file loads too, keeps every query
    the shorter one kept, and returns at least as many rows. *)
Theorem more_rows_keep_queries header rows more recs' X y g :
  outcome (load_csv (header :: rows)) = Ok (X, y, g) →
  parse_rows (DictReader (header :: rows ++ more)) = Ok recs' →
  Forall in_int32 (recs'.*2.*2) →
  ∃ X' y' g',
    outcome (load_csv (header :: rows ++ more)) = Ok (X', y', g') ∧
    (length g ≤ length g')%nat ∧ (len y ≤ len y')%nat ∧ (len X ≤ len X')%nat.
Proof.
  intros (recs&Hparse&Hsome&_&_&->&->&->)%load_csv_Ok_inv Hparse' Hint.
  assert (∃ added, recs' = recs ++ added) as [added ->].
  { unfold parse_rows in *. simpl in Hparse, Hparse'.
    rewrite filter_app, fmap_app in Hparse'.
    apply mapM_app_Ok_inv in Hparse' as (k1&k2&Hk1&_&->).
    rewrite Hparse in Hk1. injection Hk1 as <-. by exists k2. }
  pose proof (usable_queries_app_sublist recs added) as Hsub.
  assert (usable_queries (recs ++ added) ≠ []) as Hsome'.
  { intros Hnil. rewrite Hnil in Hsub. by apply sublist_nil_r in Hsub. }
  rewrite (load_csv_usable _ _ Hparse' Hsome'). simpl.
  rewrite np_array_int32_Ok.
  2: { apply Forall_forall. intros a Ha. rewrite Forall_forall in Hint.
       by apply Hint, kept_labels_subseteq. }
  do 3 eexists. split; [done|]. simpl. unfold kept_sizes.
  rewrite !length_fmap. split; [by apply sublist_length|].
  split; apply kept_items_app_length.
Qed.

End more_rows_load.

(** * The program on concrete files *)

Import Ref Files.

(** a decidable proposition about concrete data, by evaluation *)
Ltac by_evaluation := apply (bool_decide_unpack _); reflexivity.

Module Examples.

(** The reference builtins on some texts. *)
Example int_of_str_examples :
  int_of_str " -12_3 " = Some (-123)%Z ∧ int_of_str "007" = Some 7%Z ∧
  int_of_str "+5" = Some 5%Z ∧ int_of_str "1__2" = None ∧
  int_of_str "1.0" = None ∧ int_of_str "" = None ∧ int_of_str "x" = None.
Proof. repeat split; reflexivity. Qed.

Example float_of_str_examples :
  float_of_str "0.5" = Some (FDec false 5 (-1)) ∧
  float_of_str "-1.5e-3" = Some (FDec true 15 (-4)) ∧
  float_of_str ".5" = Some (FDec false 5 (-1)) ∧
  float_of_str "5." = Some (FDec false 5 0) ∧
  float_of_str "-Infinity" = Some (FInf true) ∧
  float_of_str "NaN" = Some FNaN ∧
  float_of_str "." = None ∧ float_of_str "1e" = None ∧
  float_of_str "x" = None.
Proof. repeat split; reflexivity. Qed.

(** A short line leaves [None] under the missing keys; a long one is cut;
    a blank line is skipped. *)
Example DictReader_example :
  DictReader [["a"; "b"]; ["1"]; []; ["2"; "3"; "4"]] =
  [ {[ "a" := Some "1"; "b" := None ]};
    {[ "a" := Some "2"; "b" := Some "3" ]} ].
Proof. by_evaluation. Qed.

Example first_occurrences_example :
  first_occurrences ["b"; "a"; "b"; "c"; "a"] = ["b"; "a"; "c"].
Proof. reflexivity. Qed.

Example defaultdict_append_example :
  defaultdict_append [("b", [1]); ("a", [2])] "b" 3 = [("b", [1; 3]); ("a", [2])] ∧
  defaultdict_append [("b", [1]); ("a", [2])] "c" 3 =
    [("b", [1]); ("a", [2]); ("c", [3])].
Proof. split; reflexivity. Qed.

(** The example of the specification: three rows kept, one group of size
    3, one query skipped. *)
Example load_csv_two_queries :
  load_csv two_queries =
  MkIO [Stderr "Skipped 1 queries with uniform labels (no ranking signal)."]
       (Ok (Array2 7 [features32; features32; features32],
            Array1 [0; 1; 2]%Z, [3])).
Proof. reflexivity. Qed.

Example parse_two_queries :
  parse_rows (DictReader two_queries) = Ok two_queries_records.
Proof. reflexivity. Qed.

Lemma uniform_groups_contribute_nothing_witness :
  parse_rows (DictReader two_queries) = Ok two_queries_records ∧
  ∃ by_query,
    read_rows (DictReader two_queries) [] = Ok by_query ∧
    skipped (filter_groups by_query) = 1 ∧
    zip (X_rows (filter_groups by_query)) (y_rows (filter_groups by_query)) ≡ₚ
      [(features, 0%Z); (features, 1%Z); (features, 2%Z)].
Proof.
  split; [reflexivity|].
  destruct (uniform_groups_contribute_nothing two_queries two_queries_records)
    as (by_query&Hread&Hskipped&Hrows&_); [reflexivity|].
  exists by_query. split; [exact Hread|]. split.
  - rewrite Hskipped. reflexivity.
  - rewrite Hrows. reflexivity.
Defined.

Lemma group_sizes_sum_to_rows_witness :
  sum_list [2; 2] = 4 ∧
  [1; 2; 0; 1]%Z =
    concat (fmap (M:=list) snd <$> kept_groups interleaved_records) ∧
  [2; 2] = length <$> kept_groups interleaved_records ∧
  take 2 (drop (sum_list (take 1 [2; 2])) [1; 2; 0; 1]%Z) =
    (group_of (Some "q1") interleaved_records).*2.
Proof.
  destruct (group_sizes_sum_to_rows interleaved
              (Array2 7 [features32; features32; features32; features32])
              (Array1 [1; 2; 0; 1]%Z) [2; 2])
    as (Hsum&_&_&recs&Hparse&_&_&Hy&Hg&Hseg); [reflexivity|].
  assert (recs = interleaved_records) as ->.
  { assert (parse_rows (DictReader interleaved) = Ok interleaved_records)
      as Hrecs by reflexivity.
    rewrite Hrecs in Hparse. by injection Hparse as <-. }
  split; [exact Hsum|]. split; [exact Hy|]. split; [exact Hg|].
  destruct (Hseg 1 (Some "q1")) as (_&_&Hlabels); [reflexivity|].
  exact Hlabels.
Defined.

Lemma group_sizes_at_least_2_witness :
  Forall (λ n, (2 ≤ n)%nat) [3] ∧ [3] ≠ [].
Proof.
  apply (group_sizes_at_least_2 two_queries
           (Array2 7 [features32; features32; features32])
           (Array1 [0; 1; 2]%Z) [3]).
  reflexivity.
Defined.

Lemma no_usable_data_exits_witness :
  load_csv one_uniform_query =
    MkIO [Stderr "Skipped 1 queries with uniform labels (no ranking signal).";
          Stderr no_usable_data_message]
         (Raise (SystemExit 1)) ∧
  load_csv [header] =
    MkIO [Stderr no_usable_data_message] (Raise (SystemExit 1)) ∧
  Forall (λ ev, ¬ is_LgbTrain ev ∧ ¬ is_SaveModel ev)
         (events (main args one_uniform_query)).
Proof.
  destruct (no_usable_data_exits one_uniform_query
              [record "q2" 1; record "q2" 1] args) as (Hload&_&Hmain).
  { right. split; [reflexivity|].
    intros q Hq. change (q ∈ [Some "q2"]) in Hq.
    apply list_elem_of_singleton in Hq as ->.
    by_evaluation. }
  destruct (no_usable_data_exits [header] [] args) as (Hload0&_).
  { left. split; reflexivity. }
  split; [exact Hload|]. split; [exact Hload0|exact Hmain].
Defined.

(** Queries come out in order of first occurrence (q2 before q1), each
    with its rows in arrival order; q3 is dropped. *)
Lemma load_csv_output_order_witness :
  load_csv interleaved =
  MkIO [Stderr "Skipped 1 queries with uniform labels (no ranking signal)."]
       (Ok (Array2 7 [features32; features32; features32; features32],
            Array1 [1; 2; 0; 1]%Z, [2; 2])).
Proof.
  destruct (load_csv_output_order interleaved interleaved_records)
    as [Hrun _]; [reflexivity|..].
  - change ([Some "q2"; Some "q1"] ≠ []). discriminate.
  - change (Forall in_int32 [1; 2; 0; 1]%Z).
    repeat constructor; unfold INT32_MIN, INT32_MAX; lia.
  - rewrite Hrun. reflexivity.
Defined.

(** Labels 5 and -1 load like labels 1 and 0. *)
Example load_csv_out_of_range_labels :
  load_csv out_of_range_labels =
  MkIO [] (Ok (Array2 7 [features32; features32], Array1 [5; -1]%Z, [2])).
Proof. reflexivity. Qed.

Lemma labels_are_opaque_witness :
  load_csv out_of_range_labels =
  relabel_output rename_5_and_minus_1 (load_csv in_range_labels).
Proof.
  apply (labels_are_opaque in_range_labels out_of_range_labels
           [record "q" 1; record "q" 0]).
  - reflexivity.
  - reflexivity.
  - intros a b Ha Hb. change (a ∈ [1; 0]%Z) in Ha. change (b ∈ [1; 0]%Z) in Hb.
    rewrite !elem_of_cons, elem_of_nil in Ha, Hb.
    destruct Ha as [->|[->|[]]], Hb as [->|[->|[]]]; done.
  - change (Forall in_int32 [1; 0]%Z).
    repeat constructor; unfold INT32_MIN, INT32_MAX; lia.
  - change (Forall in_int32 [5; -1]%Z).
    repeat constructor; unfold INT32_MIN, INT32_MAX; lia.
Defined.

(** C10, as stated, fails: a label that [int()] accepts and that lies
    outside {0, 1, 2} makes [load_csv] raise OverflowError where the same
    file with the label 1 loads. *)
Lemma huge_label_overflows :
  int_of_str "99999999999999999999" = Some 99999999999999999999%Z ∧
  load_csv huge_label =
    MkIO [] (Raise (OverflowError 99999999999999999999)) ∧
  load_csv [header; line "q" "0"; line "q" "1"] =
    MkIO [] (Ok (Array2 7 [features32; features32], Array1 [0; 1]%Z, [2])).
Proof. split; [|split]; reflexivity. Qed.

Lemma train_calls_library_witness :
  train empty_X empty_y [] =
  MkIO [Stderr "Training LambdaRank: 0 samples, 0 queries, 7 features, 300 rounds.";
        LgbTrain train_params empty_train_data 300 [empty_train_data]
                 ["train"] [log_evaluation 50]]
       (lgb_train train_params empty_train_data 300 [empty_train_data]
                  ["train"] [log_evaluation 50]) ∧
  Exists is_LgbTrain (events (train empty_X empty_y [])).
Proof.
  apply (train_calls_library empty_X empty_y [] 7). reflexivity.
Defined.

(** C7, as stated, fails: on a training set with no group [train] raises
    no error of its own; it calls the library's trainer. *)
Lemma train_empty_set_calls_library :
  events (train empty_X empty_y []) =
  [Stderr "Training LambdaRank: 0 samples, 0 queries, 7 features, 300 rounds.";
   LgbTrain train_params empty_train_data 300 [empty_train_data]
            ["train"] [log_evaluation 50]] ∧
  Exists is_LgbTrain (events (train empty_X empty_y [])).
Proof.
  split; [reflexivity|].
  apply Exists_cons_tl, Exists_cons_hd. exact I.
Qed.

Lemma first_malformed_bad_f0 :
  first_malformed (DictReader bad_f0_in_first) 0 "f0_similarity" "x".
Proof.
  exists (make_row header ["q"; "1"; "x"; "1"; "2"; "3"; "4"; "5"; "6"]),
         ["qid"; "label"],
         ["f1_rank_score"; "f2_authority"; "f3_source_boost"; "f4_crop_match";
          "f5_term_density"; "f6_chunk_pos"].
  split; [reflexivity|]. split; [constructor|]. split; [reflexivity|].
  split; [done|]. split.
  { by_evaluation. }
  split; [reflexivity|].
  by_evaluation.
Qed.

Lemma first_malformed_bad_f3 :
  first_malformed (DictReader bad_f3_in_second) 1 "f3_source_boost" "x".
Proof.
  exists (make_row header ["q"; "0"; "0.5"; "1"; "2"; "x"; "4"; "5"; "6"]),
         ["qid"; "label"; "f0_similarity"; "f1_rank_score"; "f2_authority"],
         ["f4_crop_match"; "f5_term_density"; "f6_chunk_pos"].
  split; [reflexivity|]. split.
  { repeat constructor. eexists. reflexivity. }
  split; [reflexivity|]. split; [done|]. split.
  { by_evaluation. }
  split; [reflexivity|].
  by_evaluation.
Qed.

Lemma malformed_field_aborts_witness :
  load_csv bad_f3_in_second = MkIO [] (Raise (ValueError py_float "x")) ∧
  main args bad_f3_in_second =
    MkIO [Stderr "Loading training data from training.csv ..."]
         (Raise (ValueError py_float "x")).
Proof.
  exact (malformed_field_aborts bad_f3_in_second 1 "f3_source_boost" "x" args
           first_malformed_bad_f3).
Defined.

(** C5, as stated, fails: the exception does not name the field or the
    record.  A bad first feature in the first record and a bad fourth
    feature in the second record end [load_csv] with the same exception,
    which carries the rejected text and the builtin that rejected it. *)
Lemma malformed_field_not_named :
  first_malformed (DictReader bad_f0_in_first) 0 "f0_similarity" "x" ∧
  first_malformed (DictReader bad_f3_in_second) 1 "f3_source_boost" "x" ∧
  load_csv bad_f0_in_first = MkIO [] (Raise (ValueError py_float "x")) ∧
  load_csv bad_f3_in_second = load_csv bad_f0_in_first.
Proof.
  split; [exact first_malformed_bad_f0|].
  split; [exact first_malformed_bad_f3|].
  split; reflexivity.
Qed.



(** A header without the last feature column and a first record with a bad
    label: the label is read first, its ValueError comes before the
    KeyError. *)
Example missing_column_after_bad_label :
  load_csv [["qid"; "label"; "f0_similarity"; "f1_rank_score"; "f2_authority";
             "f3_source_boost"; "f4_crop_match"; "f5_term_density"];
            ["q"; "high"; "0.5"; "1"; "2"; "3"; "4"; "5"]] =
  MkIO [] (Raise (ValueError py_int "high")).
Proof. reflexivity. Qed.

End Examples.

(** * The further properties on concrete files *)

Module MoreExamples.
Import Runtimes MoreFiles.

Lemma load_csv_label_overflow_witness :
  load_csv huge_label = MkIO [] (Raise (OverflowError 99999999999999999999)).
Proof.
  apply (load_csv_label_overflow huge_label
           [record "q" 0; record "q" 99999999999999999999] 1); reflexivity.
Defined.

Lemma load_csv_reads_required_only_witness :
  load_csv columns_moved = load_csv in_range_labels.
Proof.
  apply load_csv_reads_required_only.
  eapply Forall2_impl.
  - assert (Forall2 (λ row row' : DictRow,
                       Forall (λ c, row !! c = row' !! c) REQUIRED_COLS)
                    (DictReader in_range_labels) (DictReader columns_moved))
      as Hrows by by_evaluation.
    exact Hrows.
  - intros row row' Hall c Hc. rewrite Forall_forall in Hall. by apply Hall.
Defined.

Lemma first_bad_field_decides_witness :
  load_csv short_second_line = MkIO [] (Raise (TypeError py_float)) ∧
  main args short_second_line =
    MkIO [Stderr (loading_message args)] (Raise (TypeError py_float)).
Proof.
  apply (first_bad_field_decides short_second_line 1
           (make_row header short_line)
           ["qid"; "label"; "f0_similarity"] "f1_rank_score"
           ["f2_authority"; "f3_source_boost"; "f4_crop_match";
            "f5_term_density"; "f6_chunk_pos"] args).
  - reflexivity.
  - repeat constructor. eexists. reflexivity.
  - reflexivity.
  - by_evaluation.
  - by_evaluation.
Defined.

Lemma short_line_TypeError_witness :
  load_csv [header; short_line] = MkIO [] (Raise (TypeError py_float)).
Proof.
  apply (short_line_TypeError header short_line [] 3
           ["qid"; "label"; "f0_similarity"] "f1_rank_score"
           ["f2_authority"; "f3_source_boost"; "f4_crop_match";
            "f5_term_density"; "f6_chunk_pos"]).
  - done.
  - reflexivity.
  - simpl. lia.
  - reflexivity.
  - done.
  - by_evaluation.
Defined.

Lemma column_order_irrelevant_witness :
  load_csv (columns_swapped_header :: columns_swapped_rows) =
  load_csv in_range_labels.
Proof.
  apply (column_order_irrelevant header columns_swapped_header
           [line "q" "1"; line "q" "0"] columns_swapped_rows).
  - by_evaluation.
  - repeat constructor; apply perm_swap.
Defined.

Lemma row_order_up_to_permutation_witness :
  events (load_csv rows_swapped) = events (load_csv in_range_labels) ∧
  ((∃ ts, outcome (load_csv in_range_labels) = Ok ts) ↔
   (∃ ts, outcome (load_csv rows_swapped) = Ok ts)).
Proof.
  destruct (row_order_up_to_permutation in_range_labels rows_swapped
              [record "q" 1; record "q" 0] [record "q" 0; record "q" 1])
    as (Hevents&Hiff&_); [reflexivity|reflexivity|apply perm_swap|].
  split; [exact Hevents|exact Hiff].
Defined.

Lemma main_trains_on_loaded_set_witness :
  (∃ rest, events (main args in_range_labels) =
           trained_events args in_range_labels loaded_X loaded_y [2] ++ rest) ∧
  shape loaded_X = [2; 7] ∧ sum_list [2] = 2.
Proof.
  apply (main_trains_on_loaded_set args in_range_labels loaded_X loaded_y [2]).
  reflexivity.
Defined.

Lemma training_failure_writes_nothing_witness :
  @main builtins trainer_raises args in_range_labels =
  MkIO (@trained_events builtins trainer_raises args in_range_labels
                        loaded_X loaded_y [2])
       (Raise (LibraryError "lgb.train")).
Proof.
  apply (@training_failure_writes_nothing builtins trainer_raises args
           in_range_labels loaded_X loaded_y [2]); reflexivity.
Defined.

Lemma save_failure_ends_run_witness :
  @main builtins mkdir_raises args in_range_labels =
    MkIO (@trained_events builtins mkdir_raises args in_range_labels
                          loaded_X loaded_y [2] ++
          [@Mkdir builtins mkdir_raises "model.txt"])
         (Raise (LibraryError "mkdir")) ∧
  @main builtins save_raises args in_range_labels =
    MkIO (@trained_events builtins save_raises args in_range_labels
                          loaded_X loaded_y [2] ++
          [@Mkdir builtins save_raises "model.txt";
           @SaveModel builtins save_raises
             (dataset_of loaded_X loaded_y [2]) "model.txt"])
         (Raise (LibraryError "save_model")).
Proof.
  split.
  - destruct (@save_failure_ends_run builtins mkdir_raises args
                in_range_labels loaded_X loaded_y [2]
                (dataset_of loaded_X loaded_y [2])) as [Hmkdir _];
      [reflexivity|reflexivity|].
    apply Hmkdir. reflexivity.
  - destruct (@save_failure_ends_run builtins save_raises args
                in_range_labels loaded_X loaded_y [2]
                (dataset_of loaded_X loaded_y [2])) as [_ Hsave];
      [reflexivity|reflexivity|].
    apply Hsave; reflexivity.
Defined.

Lemma local_run_saves_model_witness :
  main args in_range_labels =
  MkIO [Stderr "Loading training data from training.csv ...";
        Stderr "Loaded: 2 samples across 1 queries, 7 features.";
        Stderr "Training LambdaRank: 2 samples, 1 queries, 7 features, 300 rounds.";
        train_call (dataset_of loaded_X loaded_y [2]);
        Mkdir "model.txt";
        SaveModel (dataset_of loaded_X loaded_y [2]) "model.txt";
        Stderr "Model saved to model.txt";
        Stderr tip_message]
       (Ok ()).
Proof.
  apply (@local_run_saves_model builtins libraries args in_range_labels loaded_X loaded_y [2]
           (dataset_of loaded_X loaded_y [2])); try reflexivity.
  intros [Hbucket _]. by apply Hbucket.
Defined.

Lemma upload_without_boto3_warns_witness :
  main upload_args in_range_labels =
  MkIO (trained_events upload_args in_range_labels loaded_X loaded_y [2] ++
        saved_events upload_args (dataset_of loaded_X loaded_y [2]) ++
        [Stderr no_boto3_message])
       (Ok ()).
Proof.
  apply (@upload_without_boto3_warns builtins libraries upload_args in_range_labels
           loaded_X loaded_y [2] (dataset_of loaded_X loaded_y [2]));
    try reflexivity.
  split; discriminate.
Defined.

Lemma upload_outcome_is_main_outcome_witness :
  @main builtins upload_raises upload_args in_range_labels =
  MkIO (@trained_events builtins upload_raises upload_args in_range_labels
                        loaded_X loaded_y [2] ++
        @saved_events builtins upload_raises upload_args
                      (dataset_of loaded_X loaded_y [2]) ++
        [@Stderr builtins upload_raises (uploading_message upload_args);
         @UploadFile builtins upload_raises "model.txt" "bucket"
                     "models/ranker/model.txt"])
       (Raise (LibraryError "upload_file")).
Proof.
  apply (@upload_outcome_is_main_outcome builtins upload_raises upload_args
           in_range_labels loaded_X loaded_y [2]
           (dataset_of loaded_X loaded_y [2])
           (λ _ _ _, Raise (LibraryError "upload_file")));
    try reflexivity.
  split; discriminate.
Defined.

Lemma more_rows_keep_queries_witness :
  ∃ X' y' g',
    outcome (load_csv (header :: [line "q" "1"; line "q" "0"] ++ added_rows)) =
      Ok (X', y', g') ∧
    (length [2] ≤ length g')%nat ∧ (len loaded_y ≤ len y')%nat ∧
    (len loaded_X ≤ len X')%nat.
Proof.
  apply (more_rows_keep_queries header [line "q" "1"; line "q" "0"] added_rows
           [record "q" 1; record "q" 0; record "q9" 1; record "q9" 2;
            record "q" 1] loaded_X loaded_y [2]).
  - reflexivity.
  - reflexivity.
  - change (Forall in_int32 [1; 0; 1; 2; 1]%Z).
    repeat constructor; unfold INT32_MIN, INT32_MAX; lia.
Defined.

End MoreExamples.
